(** * PyClipper: the EDL engine and the segment algebra

    A shallow embedding of the timestamp parser, the EDL loader, the
    interval normalisation, the keep-segment derivation and the mute
    reconciliation of [PyClipper_v1.py] and
    [PyClipper_Beta_AudioOptions.py], with the properties the
    specification states about them.

    Modelling choices.
    - Seconds are exact rationals ([Q]).  Comparisons, [max] and the
      arithmetic of [parse_timestamp_string] are those of the finite
      values Python computes with, without rounding; [nan] and the
      infinities have no counterpart.
    - Text is [string], one byte per character; [strip] and [lower] are
      those of ASCII text.
    - [list.sort()] is stable and compares with [<]: its result on a list
      of tuples is computed by a stable insertion sort ([sort]).
    - A row of [csv.DictReader] is a [gmap string (option string)]: a key
      is a column of the header, [Some s] a cell, [None] the [None] with
      which [DictReader] fills a row shorter than the header.
    - An exception is a value of [exn]; a function that can raise returns
      a [result].  What [print] writes while loading is returned as a
      list of (row index, exception).
    - The builtin [float] is not code of the repository: the functions
      take it as the section variable [py_float]; [float_literal] is an
      instance reading decimal literals, used to run the functions on
      concrete rows. *)

From Stdlib Require Import QArith Lqa Lia List String Ascii Sorted Permutation.
From stdpp Require Import gmap strings.

Open Scope Q_scope.

(** ** Python strings *)

Module PyStr.

(** [str.isspace] on one ASCII character: TAB..CR, FS..US and space. *)
Definition isspace (c : ascii) : bool :=
  let n := nat_of_ascii c in
  (((9 <=? n) && (n <=? 13)) || ((28 <=? n) && (n <=? 32)))%nat.

Fixpoint lstrip (s : string) : string :=
  match s with
  | EmptyString => EmptyString
  | String c s' => if isspace c then lstrip s' else s
  end.

Fixpoint rstrip (s : string) : string :=
  match s with
  | EmptyString => EmptyString
  | String c s' =>
      match rstrip s' with
      | EmptyString => if isspace c then EmptyString else String c EmptyString
      | r => String c r
      end
  end.

(** [s.strip()] *)
Definition strip (s : string) : string := rstrip (lstrip s).

Definition lower_char (c : ascii) : ascii :=
  let n := nat_of_ascii c in
  if ((65 <=? n) && (n <=? 90))%nat then ascii_of_nat (n + 32) else c.

(** [s.lower()] *)
Fixpoint lower (s : string) : string :=
  match s with
  | EmptyString => EmptyString
  | String c s' => String (lower_char c) (lower s')
  end.

(** [sep in s] for a one-character [sep] *)
Fixpoint contains (sep : ascii) (s : string) : bool :=
  match s with
  | EmptyString => false
  | String c s' => if Ascii.eqb c sep then true else contains sep s'
  end.

(** [s.split(sep)] for a one-character [sep] *)
Fixpoint split (sep : ascii) (s : string) : list string :=
  match s with
  | EmptyString => [EmptyString]
  | String c s' =>
      if Ascii.eqb c sep then EmptyString :: split sep s'
      else match split sep s' with
           | p :: ps => String c p :: ps
           | [] => [String c EmptyString]
           end
  end.

(** truth value of a [str] *)
Definition truthy (s : string) : bool :=
  match s with EmptyString => false | _ => true end.

End PyStr.

(** ** Exceptions *)

Inductive exn : Type :=
| ValueError (msg : message)
| AttributeError
| KeyError (key : string)
with message : Type :=
| Could_not_convert (text : string)
| Invalid_time_format (text : string)
| Could_not_parse_timestamp (text : string)
| Missing_record_in_or_record_out (action : string)
| Invalid_time_range (record_in record_out : Q)
| Missing_insert_source
| Missing_source_in_or_source_out
| Invalid_source_range (source_in source_out : Q)
| Missing_record_in_for_insert
| Error_in_row (row_idx : nat) (cause : exn).

Inductive result (A : Type) : Type :=
| Ok (value : A)
| Raise (e : exn).
Arguments Ok {A} value.
Arguments Raise {A} e.

#[global] Instance result_ret : MRet result := fun A x => Ok x.
#[global] Instance result_bind : MBind result := fun A B f m =>
  match m with
  | Ok x => f x
  | Raise e => Raise e
  end.

Definition raises {A} (r : result A) : Prop :=
  match r with Ok _ => False | Raise _ => True end.

(** ** A reader of decimal literals for [float] *)

Module Literal.

Definition digit_of (c : ascii) : option Z :=
  let n := nat_of_ascii c in
  if ((48 <=? n) && (n <=? 57))%nat then Some (Z.of_nat (n - 48)) else None.

(** the longest run of digits at the head of [s]: the number read after
    [acc], how many digits were read, and what follows *)
Fixpoint digits (acc : Z) (cnt : nat) (s : string) : Z * nat * string :=
  match s with
  | EmptyString => (acc, cnt, s)
  | String c s' =>
      match digit_of c with
      | Some d => digits (10 * acc + d)%Z (S cnt) s'
      | None => (acc, cnt, s)
      end
  end.

Definition sign (s : string) : bool * string :=
  match s with
  | String "-" s' => (true, s')
  | String "+" s' => (false, s')
  | _ => (false, s)
  end.

(** [m * 10 ^ k] *)
Definition scale (m k : Z) : Q :=
  if (0 <=? k)%Z then inject_Z (m * 10 ^ k) else m # Z.to_pos (10 ^ (- k)).

(** optional exponent part, up to the end of the text *)
Definition exponent (s : string) : option Z :=
  match s with
  | EmptyString => Some 0%Z
  | String c s' =>
      if Ascii.eqb c "e" || Ascii.eqb c "E" then
        let '(neg, s1) := sign s' in
        let '(e, n, s2) := digits 0 0 s1 in
        match n, s2 with
        | S _, EmptyString => Some (if neg : bool then - e else e)%Z
        | _, _ => None
        end
      else None
  end.

(** [float(s)] for [s] a decimal literal: blanks around it, a sign,
    digits with an optional point, an optional exponent.  [None] is
    [ValueError].  The other texts that [float] reads (digits grouped by
    underscores, the names of the infinities and of nan) are not read. *)
Definition float_literal (s : string) : option Q :=
  let '(neg, s1) := sign (PyStr.strip s) in
  let '(ip, ni, s2) := digits 0 0 s1 in
  let '(m, nf, s3) :=
    match s2 with
    | String "." s' => digits ip 0 s'
    | _ => (ip, 0%nat, s2)
    end in
  if (ni + nf =? 0)%nat then None
  else match exponent s3 with
       | Some e => Some (scale (if neg : bool then - m else m) (e - Z.of_nat nf))
       | None => None
       end.

End Literal.

(** ** Python numbers *)

(** [a < b] on two floats *)
Definition Qltb (a b : Q) : bool :=
  match a ?= b with Lt => true | _ => false end.

Module Py.

(** [max(a, b)]: [b] when [b > a], else [a] *)
Definition max (a b : Q) : Q := if Qltb a b then b else a.

(** [float(s)], given what the builtin does on a [str] *)
Definition float (py_float : string -> option Q) (s : string) : result Q :=
  match py_float s with
  | Some v => Ok v
  | None => Raise (ValueError (Could_not_convert s))
  end.

End Py.

(** ** The timestamp parser *)

Section Timestamp.

(** the builtin [float] on a [str]; [None] is its [ValueError] *)
Variable py_float : string -> option Q.

(** [parse_timestamp_string(s, video_duration)]; the duration is [None]
    when the caller passes [None], and the value returned is [None] when
    the function returns that [None]. *)
Definition parse_timestamp_string (s : string) (video_duration : option Q)
  : result (option Q) :=
  let s := PyStr.lower (PyStr.strip s) in
  if String.eqb s "start" then Ok (Some 0)
  else if String.eqb s "end" then Ok video_duration
  else if PyStr.contains ":" s then
    parts ← mapM (Py.float py_float) (PyStr.split ":" s);
    match parts with
    | [p0; p1] => Ok (Some (p0 * 60 + p1))
    | [p0; p1; p2] => Ok (Some (p0 * 3600 + p1 * 60 + p2))
    | _ => Raise (ValueError (Invalid_time_format s))
    end
  else
    match py_float s with
    | Some v => Ok (Some v)
    | None => Raise (ValueError (Could_not_parse_timestamp s))
    end.

End Timestamp.

(** ** Edit operations and rows *)

(** the keys an [insert] row adds to the operation *)
Record insert_fields : Type := {
  insert_source : string;
  source_in : Q;
  source_out : Q;
  transition_in : option string;
  transition_in_duration : Q;
  transition_out : option string;
  transition_out_duration : Q
}.

(** the dict [op]; [record_in] and [record_out] are [None] when the key
    was not set *)
Record operation : Type := {
  action : string;
  record_in : option Q;
  record_out : option Q;
  insert : option insert_fields
}.

Module Row.

(** [row.get(key, default)] *)
Definition get (row : gmap string (option string)) (key default : string)
  : option string :=
  match row !! key with
  | Some cell => cell
  | None => Some default
  end.

(** [key in row and row[key]]: the text of the cell when it is there and
    not empty *)
Definition present (row : gmap string (option string)) (key : string)
  : option string :=
  match row !! key with
  | Some (Some s) => if PyStr.truthy s then Some s else None
  | _ => None
  end.

(** a [str] method called on a cell: [AttributeError] on [None] *)
Definition str (cell : option string) : result string :=
  match cell with
  | Some s => Ok s
  | None => Raise AttributeError
  end.

End Row.

(** [0 <= record_in < record_out <= video_duration] *)
Definition in_timeline (record_in record_out video_duration : Q) : bool :=
  Qle_bool 0 record_in && Qltb record_in record_out
  && Qle_bool record_out video_duration.

(** [if key in row and row[key]: op[key] = parse_timestamp_string(row[key],
    video_duration)], for [record_in] and [record_out]: the value of
    [op.get(key)] afterwards *)
Definition record_cell (py_float : string -> option Q)
    (row : gmap string (option string)) (key : string) (video_duration : Q)
  : result (option Q) :=
  match Row.present row key with
  | Some s => parse_timestamp_string py_float s (Some video_duration)
  | None => Ok None
  end.

(** the loop of [load_edl_csv] over the rows of the reader, [try_body]
    being the body of its [try]: the operations appended so far and the
    lines printed so far are threaded through *)
Fixpoint load_rows (try_body : gmap string (option string) -> result operation)
    (strict : bool) (row_idx : nat) (rows : list (gmap string (option string)))
    (operations : list operation) (printed : list (nat * exn))
  : result (list operation) * list (nat * exn) :=
  match rows with
  | [] => (Ok operations, printed)
  | row :: rest =>
      match try_body row with
      | Ok op =>
          load_rows try_body strict (S row_idx) rest (operations ++ [op]) printed
      | Raise e =>
          if strict then (Raise (ValueError (Error_in_row row_idx e)), printed)
          else load_rows try_body strict (S row_idx) rest operations
                 (printed ++ [(row_idx, e)])
      end
  end.

(** *** [PyClipper_v1.py] *)

Module V1.
Section Load.

Variable py_float : string -> option Q.

(** the body of the [try] for one row *)
Definition parse_row (video_duration : Q) (row : gmap string (option string))
  : result operation :=
  a ← Row.str (Row.get row "action" "");
  let action := PyStr.lower (PyStr.strip a) in
  record_in ← record_cell py_float row "record_in" video_duration;
  record_out ← record_cell py_float row "record_out" video_duration;
  _ ←
    (if String.eqb action "remove" || String.eqb action "keep" then
       match record_in, record_out with
       | Some r_in, Some r_out =>
           if in_timeline r_in r_out video_duration then Ok ()
           else Raise (ValueError (Invalid_time_range r_in r_out))
       | _, _ => Raise (ValueError (Missing_record_in_or_record_out action))
       end
     else Ok ());
  Ok {| action := action; record_in := record_in; record_out := record_out;
        insert := None |}.

Definition load_edl_csv (rows : list (gmap string (option string)))
    (video_duration : Q) (strict : bool)
  : result (list operation) * list (nat * exn) :=
  load_rows (parse_row video_duration) strict 1 rows [] [].

End Load.

(** [[(op['record_in'], op['record_out']) for op in edl_operations
      if op['action'] == which]], used with ['remove'] and
    ['mute_audio'] *)
Fixpoint segments_of (which : string) (edl_operations : list operation)
  : result (list (Q * Q)) :=
  match edl_operations with
  | [] => Ok []
  | op :: rest =>
      if String.eqb (action op) which then
        match record_in op, record_out op with
        | None, _ => Raise (KeyError "record_in")
        | Some _, None => Raise (KeyError "record_out")
        | Some r_in, Some r_out =>
            segs ← segments_of which rest; Ok ((r_in, r_out) :: segs)
        end
      else segments_of which rest
  end.

End V1.

(** *** [PyClipper_Beta_AudioOptions.py] *)

Module Beta.
Section Load.

Variable py_float : string -> option Q.

(** [parse_timestamp_string(cell, None)] *)
Definition parse_cell (cell : option string) : result (option Q) :=
  s ← Row.str cell; parse_timestamp_string py_float s None.

(** [row.get(key, '').strip().lower() or None] *)
Definition transition (row : gmap string (option string)) (key : string)
  : result (option string) :=
  s ← Row.str (Row.get row key "");
  let name := PyStr.lower (PyStr.strip s) in
  Ok (if PyStr.truthy name then Some name else None).

(** [float(row.get(key, '0') or 0)] *)
Definition duration (row : gmap string (option string)) (key : string)
  : result Q :=
  match Row.get row key "0" with
  | Some s => if PyStr.truthy s then Py.float py_float s else Ok 0
  | None => Ok 0
  end.

(** the [if action == 'insert':] block *)
Definition insert_block (row : gmap string (option string))
    (record_in : option Q) : result insert_fields :=
  src ← Row.str (Row.get row "insert_source" "");
  let src := PyStr.strip src in
  if negb (PyStr.truthy src) then Raise (ValueError Missing_insert_source)
  else
    s_in ← parse_cell (Row.get row "source_in" "0");
    s_out ← parse_cell (Row.get row "source_out" "");
    match s_out, s_in with
    | Some s_out, Some s_in =>
        if Qle_bool s_out s_in then
          Raise (ValueError (Invalid_source_range s_in s_out))
        else
          match record_in with
          | None => Raise (ValueError Missing_record_in_for_insert)
          | Some _ =>
              t_in ← transition row "transition_in";
              t_in_d ← duration row "transition_in_duration";
              t_out ← transition row "transition_out";
              t_out_d ← duration row "transition_out_duration";
              Ok {| insert_source := src; source_in := s_in;
                    source_out := s_out;
                    transition_in := t_in; transition_in_duration := t_in_d;
                    transition_out := t_out;
                    transition_out_duration := t_out_d |}
          end
    | _, _ => Raise (ValueError Missing_source_in_or_source_out)
    end.

(** the body of the [try] for one row *)
Definition parse_row (video_duration : Q) (row : gmap string (option string))
  : result operation :=
  a ← Row.str (Row.get row "action" "");
  let action := PyStr.lower (PyStr.strip a) in
  record_in ← record_cell py_float row "record_in" video_duration;
  record_out ← record_cell py_float row "record_out" video_duration;
  _ ←
    (if String.eqb action "remove" || String.eqb action "keep" then
       match record_in, record_out with
       | Some r_in, Some r_out =>
           if in_timeline r_in r_out video_duration then Ok ()
           else Raise (ValueError (Invalid_time_range r_in r_out))
       | _, _ => Raise (ValueError (Missing_record_in_or_record_out action))
       end
     else Ok ());
  ins ←
    (if String.eqb action "insert" then
       f ← insert_block row record_in; Ok (Some f)
     else Ok None);
  Ok {| action := action; record_in := record_in; record_out := record_out;
        insert := ins |}.

Definition load_edl_csv (rows : list (gmap string (option string)))
    (video_duration : Q) (strict : bool)
  : result (list operation) * list (nat * exn) :=
  load_rows (parse_row video_duration) strict 1 rows [] [].

End Load.
End Beta.

(** ** Segments *)

(** a tuple [(start, end)] *)
Abbreviation segment := (Q * Q)%type.

(** [a < b] on tuples of two floats: the first components that differ
    decide *)
Definition tuple_ltb (a b : segment) : bool :=
  if negb (Qeq_bool (fst a) (fst b)) then Qltb (fst a) (fst b)
  else if negb (Qeq_bool (snd a) (snd b)) then Qltb (snd a) (snd b)
  else false.

(** [list.sort()] is a stable sort that compares with [<]; on a list of
    tuples its result is the one of this insertion sort (the list that is
    ordered and keeps equal tuples in their order is unique, see
    [sort_characterised]). *)
Fixpoint insert_sorted (x : segment) (l : list segment) : list segment :=
  match l with
  | [] => [x]
  | y :: l' => if tuple_ltb y x then y :: insert_sorted x l' else x :: l
  end.

Definition sort (l : list segment) : list segment :=
  fold_right insert_sorted [] l.

(** one turn of the merging loops: [merged[-1]] is read with [last] and
    replaced with a list update *)
Definition merge_step (merged : list segment) (seg : segment) : list segment :=
  match last merged with
  | None => merged ++ [seg]
  | Some top =>
      if Qltb (snd top) (fst seg) then merged ++ [seg]
      else <[pred (length merged) := (fst top, Py.max (snd top) (snd seg))]> merged
  end.

(** the loop that builds [merged] from the sorted [remove_segments] *)
Definition merged (remove_segments : list segment) : list segment :=
  fold_left merge_step remove_segments [].

(** the loop that builds [merged_segments] from the sorted
    [all_mute_segments] *)
Definition merged_segments (all_mute_segments : list segment) : list segment :=
  fold_left merge_step all_mute_segments [].

(** [remove_segments.sort()] followed by the merging loop *)
Definition normalize (remove_segments : list segment) : list segment :=
  merged (sort remove_segments).

(** the mute ranges of the EDL followed by the ones typed in, sorted and
    merged (what the script does when there is an audio track and a range
    to mute) *)
Definition reconcile (edl_mute_segments interactive : list segment)
  : list segment :=
  merged_segments (sort (edl_mute_segments ++ interactive)).

(** one turn of the loop that builds [keep_segments]; the state is
    [(keep_segments, last_end)] *)
Definition keep_step (st : list segment * Q) (seg : segment)
  : list segment * Q :=
  let '(keep, last_end) := st in
  let '(start, end') := seg in
  (if Qltb last_end start then keep ++ [(last_end, start)] else keep, end').

Definition keep_segments (remove_segments : list segment) (duration : Q)
  : list segment :=
  let '(keep, last_end) := fold_left keep_step remove_segments ([], 0) in
  if Qltb last_end duration then keep ++ [(last_end, duration)] else keep.

(** *** The same loops by recursion on the input *)

(** the merging loop with the last range of [merged] held in [cur] *)
Fixpoint merge_from (cur : segment) (rest : list segment) : list segment :=
  match rest with
  | [] => [cur]
  | seg :: rest' =>
      if Qltb (snd cur) (fst seg) then cur :: merge_from seg rest'
      else merge_from (fst cur, Py.max (snd cur) (snd seg)) rest'
  end.

Definition merge_sorted (l : list segment) : list segment :=
  match l with
  | [] => []
  | seg :: rest => merge_from seg rest
  end.

(** the keep loop from a given [last_end] *)
Fixpoint keep_from (last_end : Q) (rest : list segment) (duration : Q)
  : list segment :=
  match rest with
  | [] => if Qltb last_end duration then [(last_end, duration)] else []
  | (start, end') :: rest' =>
      if Qltb last_end start
      then (last_end, start) :: keep_from end' rest' duration
      else keep_from end' rest' duration
  end.

(** ** What the specification speaks of *)

(** summed lengths of a list of ranges *)
Definition total (l : list segment) : Q :=
  fold_right (fun seg acc => (snd seg - fst seg) + acc) 0 l.

(** a range has a positive length *)
Definition proper (seg : segment) : Prop := fst seg < snd seg.

(** two ranges share more than a boundary *)
Definition overlap (a b : segment) : Prop :=
  fst a < snd b /\ fst b < snd a.

(** two ranges meet at one boundary: [a.end == b.start] *)
Definition touch (a b : segment) : Prop := snd a == fst b.

(** [inner] lies inside [outer] *)
Definition inside (inner outer : segment) : Prop :=
  fst outer <= fst inner /\ snd inner <= snd outer.

(** a DisjointRangeSet: each range ends strictly before the next starts *)
Definition disjoint_sorted (l : list segment) : Prop :=
  Sorted (fun a b => snd a < fst b) l.

(** ascending by start *)
Definition ascending (l : list segment) : Prop :=
  StronglySorted (fun a b => fst a <= fst b) l.

(** two lists of ranges, each ascending by start, put in one list
    ascending by start *)
Fixpoint interleave (keep : list segment) : list segment -> list segment :=
  fix inner (remove : list segment) : list segment :=
    match keep, remove with
    | [], _ => remove
    | _, [] => keep
    | k :: keep', r :: remove' =>
        if Qle_bool (fst k) (fst r) then k :: interleave keep' remove
        else r :: inner remove'
    end.

(** the ranges of [l], in this order, cut [[lo, hi)] into pieces of
    positive length: the first starts at [lo], each next one starts where
    the one before ends, the last ends at [hi] *)
Fixpoint tiles (lo hi : Q) (l : list segment) : Prop :=
  match l with
  | [] => lo == hi
  | seg :: l' => fst seg == lo /\ fst seg < snd seg /\ tiles (snd seg) hi l'
  end.

(** [t] is a point of the half-open range *)
Definition covers (seg : segment) (t : Q) : Prop := fst seg <= t /\ t < snd seg.

(** ** Notions used in the statements, and the rows of the examples *)

(** the order of tuples that [tuple_ltb] decides *)
Definition lex_le (a b : segment) : Prop :=
  fst a < fst b \/ (fst a == fst b /\ snd a <= snd b).

(** neither tuple is [<] the other: [sort] has to keep such tuples in the
    order they had *)
Definition same_key (x y : segment) : bool :=
  negb (tuple_ltb x y) && negb (tuple_ltb y x).

Definition well_formed (seg : segment) : Prop := fst seg <= snd seg.

(** what [load_edl_csv] and the prompts accept as a range to remove:
    [0 <= start < end <= duration] *)
Definition validated (duration : Q) (seg : segment) : Prop :=
  0 <= fst seg /\ fst seg < snd seg /\ snd seg <= duration.

(** a later range that has a length and starts before [cur] ends *)
Definition reaches (cur : segment) (rest : list segment) : Prop :=
  exists y, In y rest /\ fst y < snd cur /\ proper y.

(** some range of the list is reached by an earlier one *)
Fixpoint clash (l : list segment) : Prop :=
  match l with
  | [] => False
  | x :: l' => reaches x l' \/ clash l'
  end.

(** from [cursor] on, the remove ranges come one after the other, each of
    positive length, up to [duration] *)
Fixpoint chain (cursor : Q) (remove : list segment) (duration : Q) : Prop :=
  match remove with
  | [] => cursor <= duration
  | seg :: rest =>
      cursor <= fst seg /\ fst seg < snd seg /\ chain (snd seg) rest duration
  end.

(** the operations of the rows that did not raise, in the order of the
    rows *)
Fixpoint oks {A : Type} (rs : list (result A)) : list A :=
  match rs with
  | [] => []
  | Ok x :: rs' => x :: oks rs'
  | Raise _ :: rs' => oks rs'
  end.

(** the rows that raised, with their index counted from [row_idx] *)
Fixpoint failures {A : Type} (row_idx : nat) (rs : list (result A))
  : list (nat * exn) :=
  match rs with
  | [] => []
  | Ok _ :: rs' => failures (S row_idx) rs'
  | Raise e :: rs' => (row_idx, e) :: failures (S row_idx) rs'
  end.

(** a row built from the cells of its columns *)
Definition row_of (cells : list (string * string))
  : gmap string (option string) :=
  list_to_map (map (fun kv => (fst kv, Some (snd kv))) cells).

(** the rows of the example of the specification: three rows that load
    and, second in the file, a [remove] row without [record_out] *)
Definition example_rows : list (gmap string (option string)) :=
  [ row_of [("action", "remove"); ("record_in", "0"); ("record_out", "5")];
    row_of [("action", "remove"); ("record_in", "6"); ("record_out", "")];
    row_of [("action", "keep"); ("record_in", "0:10"); ("record_out", "end")];
    row_of [("action", "mute_audio"); ("record_in", "30"); ("record_out", "40")] ].

Definition example_operations : list operation :=
  [ {| action := "remove"; record_in := Some 0; record_out := Some 5;
       insert := None |};
    {| action := "keep"; record_in := Some 10; record_out := Some 60;
       insert := None |};
    {| action := "mute_audio"; record_in := Some 30; record_out := Some 40;
       insert := None |} ].

Definition mute_row (record_in record_out : string)
  : gmap string (option string) :=
  row_of [("action", "mute_audio"); ("record_in", record_in);
          ("record_out", record_out)].

Definition remove_row (record_in record_out : string)
  : gmap string (option string) :=
  row_of [("action", "remove"); ("record_in", record_in);
          ("record_out", record_out)].

(** the cell of a column is missing: no such column, [None], or blanks
    only *)
Definition blank (row : gmap string (option string)) (key : string) : Prop :=
  match row !! key with
  | Some (Some s) => PyStr.strip s = ""%string
  | _ => True
  end.

Definition insert_row_v1 : gmap string (option string) :=
  row_of [("action", "insert"); ("record_in", ""); ("record_out", "");
          ("insert_source", ""); ("source_in", ""); ("source_out", "")].

Definition insert_row_no_source : gmap string (option string) :=
  row_of [("action", "Insert"); ("record_in", "12"); ("record_out", "");
          ("insert_source", "  "); ("source_out", "5")].

Definition insert_row_bad_range : gmap string (option string) :=
  row_of [("action", "insert"); ("record_in", "12"); ("record_out", "");
          ("insert_source", "b.mp4"); ("source_in", "0:07");
          ("source_out", "5")].

Definition insert_row_good : gmap string (option string) :=
  row_of [("action", "insert"); ("record_in", "12"); ("record_out", "");
          ("insert_source", " b.mp4 "); ("source_out", "5");
          ("transition_in", "Fade"); ("transition_in_duration", "1.5");
          ("transition_out", ""); ("transition_out_duration", "")].

(** closes a goal that is a comparison of two numerals *)
Ltac numerals := vm_compute; first [reflexivity | discriminate].

Ltac run := unfold mbind, result_bind, mret, result_ret; simpl.

(** ** The rest of the two scripts *)

(** *** More of Python *)

Module Builtin.

(** [int(x)] on a float: the integer part, towards zero *)
Definition int (x : Q) : Z := Z.quot (Qnum x) (Zpos (Qden x)).

(** [s.endswith(c)] for a one-character [c] *)
Fixpoint endswith (c : ascii) (s : string) : bool :=
  match s with
  | EmptyString => false
  | String a EmptyString => Ascii.eqb a c
  | String _ s' => endswith c s'
  end.

(** [s[:-1]] *)
Fixpoint drop_last (s : string) : string :=
  match s with
  | EmptyString => EmptyString
  | String _ EmptyString => EmptyString
  | String a s' => String a (drop_last s')
  end.

Fixpoint lstrip_char (c : ascii) (s : string) : string :=
  match s with
  | EmptyString => EmptyString
  | String a s' => if Ascii.eqb a c then lstrip_char c s' else s
  end.

Fixpoint rstrip_char (c : ascii) (s : string) : string :=
  match s with
  | EmptyString => EmptyString
  | String a s' =>
      match rstrip_char c s' with
      | EmptyString => if Ascii.eqb a c then EmptyString else String a EmptyString
      | r => String a r
      end
  end.

(** [s.strip(c)] for a one-character [c] *)
Definition strip_char (c : ascii) (s : string) : string :=
  rstrip_char c (lstrip_char c s).

End Builtin.

(** the exceptions of the code below *)
Inductive exc : Type :=
| EOFError
| NameError (name : string)
| Negative_dimensions
| Invalid_percentage_input (text : string).

Inductive outcome (A : Type) : Type :=
| Done (value : A)
| Raised (e : exc).
Arguments Done {A} value.
Arguments Raised {A} e.

(** *** Percentages and positions *)

Section Positions.

Variable py_float : string -> option Q.

(** [parse_percentage_input(user_input)] *)
Definition parse_percentage_input (user_input : string) : outcome Q :=
  let user_input := PyStr.strip user_input in
  let user_input :=
    if Builtin.endswith "%" user_input
    then PyStr.strip (Builtin.drop_last user_input)
    else user_input in
  match py_float user_input with
  | Some value => Done (value / 100)
  | None => Raised (Invalid_percentage_input user_input)
  end.

End Positions.

(** what [parse_position_input] returns: a [str] or a [float] *)
Inductive position : Type :=
| Keyword (name : string)
| Fraction (value : Q).

Definition position_keywords : list string :=
  ["left"; "center"; "right"; "top"; "bottom"]%string.

Definition invalid_position_line : string :=
  "Invalid position input, defaulting to 'center'".

Section Position_input.

Variable py_float : string -> option Q.

(** [parse_position_input(user_input)], with the lines it prints *)
Definition parse_position_input (user_input : string)
  : position * list string :=
  let user_input := PyStr.lower (PyStr.strip user_input) in
  if bool_decide (user_input ∈ position_keywords) then (Keyword user_input, [])
  else
    match
      (if Builtin.endswith "%" user_input
       then py_float (Builtin.strip_char "%" user_input)
       else None)
    with
    | Some percent => (Fraction (percent / 100), [])
    | None =>
        match py_float user_input with
        | Some val =>
            if Qle_bool 0 val && Qle_bool val 1 then (Fraction val, [])
            else if Qltb 1 val && Qle_bool val 100
                 then (Fraction (val / 100), [])
                 else (Keyword "center", [invalid_position_line])
        | None => (Keyword "center", [invalid_position_line])
        end
    end.

End Position_input.

(** [safe_position(pos, safe_margin_frac)] *)
Definition safe_position (pos : position) (safe_margin_frac : Q) : Q :=
  match pos with
  | Keyword name =>
      if String.eqb name "left" || String.eqb name "top" then safe_margin_frac
      else if String.eqb name "right" || String.eqb name "bottom"
           then 1 - safe_margin_frac
           else if String.eqb name "center" then 1 # 2 else 1 # 2
  | Fraction value => value
  end.

(** the [# X position] block and the clamp of [add_graphic_to_video] and
    [add_captions_to_video]; [w] is the width of the graphic or caption *)
Definition pos_x (horizontal : position) (video_w w margin_px : Z) : Z :=
  let pos_x :=
    match horizontal with
    | Keyword name =>
        if String.eqb name "left" then margin_px
        else if String.eqb name "center" then (video_w - w) / 2
        else if String.eqb name "right" then video_w - w - margin_px
        else (video_w - w) / 2
    | Fraction value => Builtin.int (value * inject_Z (video_w - w))
    end%Z in
  Z.max 0 (Z.min (video_w - w) pos_x).

(** the [# Y position] block and its clamp *)
Definition pos_y (vertical : position) (video_h h margin_px : Z) : Z :=
  let pos_y :=
    match vertical with
    | Keyword name =>
        if String.eqb name "top" then margin_px
        else if String.eqb name "center" then (video_h - h) / 2
        else if String.eqb name "bottom" then video_h - h - margin_px
        else (video_h - h) / 2
    | Fraction value => Builtin.int (value * inject_Z (video_h - h))
    end%Z in
  Z.max 0 (Z.min (video_h - h) pos_y).

(** *** Muting *)

(** an argument of [concatenate_audioclips]: [audio_clip.subclipped(a, b)]
    or an [AudioArrayClip] of zeros with its number of samples and the
    duration given to it *)
Inductive audio_piece : Type :=
| Subclipped (t_start t_end : Q)
| Silence (samples : Z) (duration : Q).

(** one turn of the loop of [mute_audio_segments]; the state is
    [(segments, last_end)]; [np.zeros] raises on a negative size *)
Definition mute_step (fps : Q) (st : outcome (list audio_piece * Q))
    (seg : segment) : outcome (list audio_piece * Q) :=
  match st with
  | Raised e => Raised e
  | Done (segments, last_end) =>
      let '(start, end') := seg in
      let segments :=
        if Qltb last_end start
        then segments ++ [Subclipped last_end start] else segments in
      let samples := Builtin.int ((end' - start) * fps) in
      if (samples <? 0)%Z then Raised Negative_dimensions
      else Done (segments ++ [Silence samples (end' - start)], end')
  end.

(** [mute_audio_segments(audio_clip, mute_segments)]: the list given to
    [concatenate_audioclips]; [fps] and [total_duration] are those of
    [audio_clip] *)
Definition mute_audio_segments (fps total_duration : Q)
    (mute_segments : list segment) : outcome (list audio_piece) :=
  match fold_left (mute_step fps) (sort mute_segments) (Done ([], 0)) with
  | Raised e => Raised e
  | Done (segments, last_end) =>
      Done (if Qltb last_end total_duration
            then segments ++ [Subclipped last_end total_duration]
            else segments)
  end.







(** *** The two encoding passes *)

(** [codec] and [ffmpeg_params] of the software pass *)
Definition software_encoder (quality : string) : string * list string :=
  if String.eqb quality "ultra" then
    ("libx265",
     ["-x265-params"; "lossless=1"; "-preset"; "medium";
      "-pix_fmt"; "yuv444p10le"])
  else if String.eqb quality "better" then
    ("libx265",
     ["-crf"; "23"; "-preset"; "fast"; "-pix_fmt"; "yuv420p10le"])
  else
    ("libx264",
     ["-crf"; "18"; "-preset"; "ultrafast"; "-pix_fmt"; "yuv420p"]).

Definition hevc_quality (quality : string) : bool :=
  String.eqb quality "better" || String.eqb quality "ultra".

(** [hw_codec] and [hw_params]; with another [gpu_type] neither name is
    bound, and building [cmd] raises [NameError] *)
Definition hardware_encoder (gpu_type quality : string)
  : outcome (string * list string) :=
  if String.eqb gpu_type "nvidia" then
    Done (if hevc_quality quality then "hevc_nvenc" else "h264_nvenc",
          ["-preset"; "p7"; "-tune"; "hq"]
          ++ (if String.eqb quality "ultra"
              then ["-profile:v"; "main10"; "-pix_fmt"; "p010le"]
              else ["-pix_fmt"; "yuv420p"]))
  else if String.eqb gpu_type "amd" then
    Done (if hevc_quality quality then "hevc_amf" else "h264_amf",
          ["-quality"; "quality"; "-colorspace"; "bt709";
           "-color_primaries"; "bt709"; "-color_trc"; "bt709";
           "-color_range"; "tv"; "-pix_fmt"; "yuv420p"])
  else if String.eqb gpu_type "intel" then
    Done (if hevc_quality quality then "hevc_qsv" else "h264_qsv",
          ["-preset"; "slower"; "-pix_fmt"; "yuv420p"])
  else Raised (NameError "hw_codec").

(** what the script does with the intermediate file *)
Inductive export : Type :=
| Run (cmd : list string)
| Replace (src dst : string).

(** the [if use_hw and gpu_type:] statement that ends the script;
    [gpu_type] is [None] until it is set *)
Definition export_step (use_hw : bool) (gpu_type : option string)
    (quality temp_path output_path : string) : outcome export :=
  match gpu_type with
  | Some gpu =>
      if use_hw && PyStr.truthy gpu then
        match hardware_encoder gpu quality with
        | Raised e => Raised e
        | Done (hw_codec, hw_params) =>
            Done (Run (["ffmpeg"; "-y"; "-i"; temp_path; "-vf";
                        "colorspace=all=bt709:iall=bt709:itrc=bt709:ispace=bt709:range=tv:irange=tv";
                        "-c:v"; hw_codec]
                       ++ hw_params ++ ["-c:a"; "copy"; output_path]))
        end
      else Done (Replace temp_path output_path)
  | None => Done (Replace temp_path output_path)
  end.

(** *** Prompts *)

(** a line printed by the prompting functions *)
Inductive line : Type :=
| Invalid_input_line (user_input : string)
| Invalid_timestamp_format_line
| Invalid_timestamp_line
| Invalid_segment_line
| Marked_line (start end' : Q).

(** the lines to come on the standard input, the result, and the lines
    printed; [input] raises [EOFError] when no line is left *)
Definition reply (A : Type) : Type :=
  (outcome A * list string * list line)%type.

(** [get_valid_input(prompt, invalid_responses, default)] *)
Fixpoint get_valid_input (invalid_responses : option (gset string))
    (default : option string) (stdin : list string) : reply string :=
  match stdin with
  | [] => (Raised EOFError, [], [])
  | typed :: rest =>
      let invalid :=
        match invalid_responses with
        | Some set => set
        | None => {[ "y"%string; "n"%string ]}
        end in
      let user_input := PyStr.strip typed in
      match default with
      | Some d =>
          if negb (PyStr.truthy user_input) then (Done d, rest, [])
          else if bool_decide (PyStr.lower user_input ∈ invalid) then
            let '(r, rest', out) := get_valid_input invalid_responses default rest in
            (r, rest', Invalid_input_line user_input :: out)
          else (Done user_input, rest, [])
      | None =>
          if bool_decide (PyStr.lower user_input ∈ invalid) then
            let '(r, rest', out) := get_valid_input invalid_responses default rest in
            (r, rest', Invalid_input_line user_input :: out)
          else (Done user_input, rest, [])
      end
  end.

Section Timestamp_prompt.

Variable py_float : string -> option Q.

(** [get_timestamp(prompt, video_duration, default)]; a call of the
    function by itself is a recursive call on the lines that are left *)
Fixpoint get_timestamp (video_duration default : Q) (stdin : list string)
  : reply Q :=
  match stdin with
  | [] => (Raised EOFError, [], [])
  | typed :: rest =>
      let user_input := PyStr.lower (PyStr.strip typed) in
      let again (printed : line) : reply Q :=
        let '(r, rest', out) := get_timestamp video_duration default rest in
        (r, rest', printed :: out) in
      let seconds : reply Q :=
        match py_float user_input with
        | Some v => (Done v, rest, [])
        | None => again Invalid_timestamp_line
        end in
      if negb (PyStr.truthy user_input) then (Done default, rest, [])
      else if String.eqb user_input "start"
              || String.eqb user_input "from start" then (Done 0, rest, [])
      else if String.eqb user_input "end"
              || String.eqb user_input "until end"
           then (Done video_duration, rest, [])
      else if PyStr.contains ":" user_input then
        match PyStr.split ":" user_input with
        | [p0; p1] =>
            match py_float p0, py_float p1 with
            | Some m, Some sec => (Done (m * 60 + sec), rest, [])
            | _, _ => again Invalid_timestamp_format_line
            end
        | [p0; p1; p2] =>
            match py_float p0, py_float p1, py_float p2 with
            | Some h, Some m, Some sec =>
                (Done (h * 3600 + m * 60 + sec), rest, [])
            | _, _, _ => again Invalid_timestamp_format_line
            end
        | _ => seconds
        end
      else seconds
  end.

(** the loop that asks for the segments to remove, and the one that asks
    for the segments to mute: [segments] is the list appended to; [fuel]
    bounds the number of turns *)
Fixpoint segment_loop (fuel : nat) (video_duration : Q)
    (segments : list segment) (stdin : list string)
  : option (reply (list segment)) :=
  match fuel with
  | O => None
  | S fuel' =>
      match stdin with
      | [] => Some (Raised EOFError, [], [])
      | typed :: rest =>
          if negb (String.eqb (PyStr.lower (PyStr.strip typed)) "y")
          then Some (Done segments, rest, [])
          else
            match get_timestamp video_duration 0 rest with
            | (Raised e, rest1, out1) => Some (Raised e, rest1, out1)
            | (Done start, rest1, out1) =>
                match get_timestamp video_duration 0 rest1 with
                | (Raised e, rest2, out2) => Some (Raised e, rest2, out1 ++ out2)
                | (Done end', rest2, out2) =>
                    let invalid :=
                      Qle_bool end' start || Qltb start 0
                      || Qltb video_duration end' in
                    let segments' :=
                      if invalid then segments
                      else segments ++ [(start, end')] in
                    let printed :=
                      if invalid then Invalid_segment_line
                      else Marked_line start end' in
                    match segment_loop fuel' video_duration segments' rest2 with
                    | None => None
                    | Some (r, rest3, out3) =>
                        Some (r, rest3, out1 ++ out2 ++ printed :: out3)
                    end
                end
            end
      end
  end.

(** each turn reads a line: one more turn than there are lines is enough *)
Definition ask_segments (video_duration : Q) (segments : list segment)
    (stdin : list string) : option (reply (list segment)) :=
  segment_loop (S (length stdin)) video_duration segments stdin.

End Timestamp_prompt.

(** ** Predicates of the statements on the rest of the scripts *)

(** what the check of a [remove] row leaves in the operation *)
Definition checked_remove (video_duration : Q) (op : operation) : Prop :=
  action op = "remove"%string ->
  exists x y, record_in op = Some x /\ record_out op = Some y
              /\ validated video_duration (x, y).

(** number of separators in a text *)
Fixpoint count_sep (sep : ascii) (s : string) : nat :=
  match s with
  | EmptyString => 0
  | String c s' => if Ascii.eqb c sep then S (count_sep sep s') else count_sep sep s'
  end.

(** the set of [invalid_responses] in force *)
Definition invalid_set (invalid_responses : option (gset string)) : gset string :=
  match invalid_responses with
  | Some set => set
  | None => {[ "y"%string; "n"%string ]}
  end.

(** a typed line that [get_valid_input] turns down *)
Definition turned_down (invalid_responses : option (gset string))
    (default : option string) (typed : string) : Prop :=
  (PyStr.lower (PyStr.strip typed) ∈ invalid_set invalid_responses)
  /\ (PyStr.strip typed <> ""%string \/ default = None).

(** the GPU types that the script knows *)
Definition known_gpu (gpu_type : string) : Prop :=
  gpu_type = "nvidia"%string \/ gpu_type = "amd"%string
  \/ gpu_type = "intel"%string.

(** * Properties *)

(** ** The timestamp parser on examples *)

Example parse_mm_ss :
  parse_timestamp_string Literal.float_literal "1:30" None = Ok (Some 90).
Proof. reflexivity. Qed.

Example parse_hh_mm_ss :
  parse_timestamp_string Literal.float_literal "01:02:03" None = Ok (Some 3723).
Proof. reflexivity. Qed.

Example parse_seconds :
  parse_timestamp_string Literal.float_literal " 12.5 " (Some 42) = Ok (Some (125 # 10)).
Proof. reflexivity. Qed.

Example parse_four_parts :
  parse_timestamp_string Literal.float_literal "1:2:3:4" (Some 42)
  = Raise (ValueError (Invalid_time_format "1:2:3:4")).
Proof. reflexivity. Qed.

Example parse_bad_part :
  parse_timestamp_string Literal.float_literal "1:x" (Some 42)
  = Raise (ValueError (Could_not_convert "x")).
Proof. reflexivity. Qed.

Example parse_garbage :
  parse_timestamp_string Literal.float_literal "Soon" (Some 42)
  = Raise (ValueError (Could_not_parse_timestamp "soon")).
Proof. reflexivity. Qed.

(** ** Comparisons *)

Lemma Qltb_lt (a b : Q) : Qltb a b = true <-> a < b.
Proof.
  unfold Qltb. rewrite Qlt_alt. destruct (a ?= b); split; congruence.
Qed.

Lemma Qltb_ge (a b : Q) : Qltb a b = false <-> b <= a.
Proof.
  split; intros H.
  - destruct (Qlt_le_dec a b) as [Hlt | Hle]; [| exact Hle].
    apply Qltb_lt in Hlt. congruence.
  - destruct (Qltb a b) eqn:E; [| reflexivity].
    apply Qltb_lt in E. lra.
Qed.

Lemma Qle_bool_gt (a b : Q) : Qle_bool a b = false <-> b < a.
Proof.
  split; intros H.
  - destruct (Qlt_le_dec b a) as [Hlt | Hle]; [exact Hlt |].
    apply Qle_bool_iff in Hle. congruence.
  - destruct (Qle_bool a b) eqn:E; [| reflexivity].
    apply Qle_bool_iff in E. lra.
Qed.

Lemma Qeq_bool_ne (a b : Q) : Qeq_bool a b = false <-> ~ a == b.
Proof.
  split; intros H.
  - now apply Qeq_bool_neq.
  - destruct (Qeq_bool a b) eqn:E; [| reflexivity].
    apply Qeq_bool_iff in E. contradiction.
Qed.

(** case analysis on every comparison of the goal, leaving facts of [Q] *)
Ltac cmp :=
  repeat match goal with
    | |- context [Qltb ?a ?b] =>
        let E := fresh "E" in
        destruct (Qltb a b) eqn:E;
        [apply Qltb_lt in E | apply Qltb_ge in E]
    | |- context [Qle_bool ?a ?b] =>
        let E := fresh "E" in
        destruct (Qle_bool a b) eqn:E;
        [apply Qle_bool_iff in E | apply Qle_bool_gt in E]
    | |- context [Qeq_bool ?a ?b] =>
        let E := fresh "E" in
        destruct (Qeq_bool a b) eqn:E;
        [apply Qeq_bool_iff in E | apply Qeq_bool_ne in E]
    end.

Lemma max_ub (a b : Q) : a <= Py.max a b /\ b <= Py.max a b.
Proof. unfold Py.max. cmp; lra. Qed.

Lemma max_cases (a b : Q) :
  (a < b /\ Py.max a b = b) \/ (b <= a /\ Py.max a b = a).
Proof. unfold Py.max. cmp; [left | right]; (split; [lra | reflexivity]). Qed.

Lemma in_timeline_iff (r_in r_out d : Q) :
  in_timeline r_in r_out d = true <-> 0 <= r_in /\ r_in < r_out /\ r_out <= d.
Proof.
  unfold in_timeline. rewrite !andb_true_iff, !Qle_bool_iff, Qltb_lt. tauto.
Qed.

(** ** The loops and their recursive forms *)

Lemma fold_merge_step (rest pre : list segment) (cur : segment) :
  fold_left merge_step rest (pre ++ [cur]) = pre ++ merge_from cur rest.
Proof.
  revert pre cur. induction rest as [| seg rest IH]; intros pre cur; simpl.
  - reflexivity.
  - unfold merge_step at 2. rewrite last_snoc.
    destruct (Qltb (snd cur) (fst seg)).
    + rewrite (IH (pre ++ [cur]) seg), <- app_assoc. reflexivity.
    + rewrite length_app. simpl.
      replace (pred (length pre + 1)) with (length pre + 0)%nat by lia.
      rewrite insert_app_r. simpl. apply IH.
Qed.

Lemma merged_recursive (l : list segment) : merged l = merge_sorted l.
Proof.
  destruct l as [| seg rest]; [reflexivity |].
  unfold merged. simpl. apply (fold_merge_step rest [] seg).
Qed.

Lemma merged_segments_merged (l : list segment) : merged_segments l = merged l.
Proof. reflexivity. Qed.

Lemma fold_keep_step (rest keep : list segment) (last_end duration : Q) :
  (let '(keep', last_end') := fold_left keep_step rest (keep, last_end) in
   if Qltb last_end' duration then keep' ++ [(last_end', duration)] else keep')
  = keep ++ keep_from last_end rest duration.
Proof.
  revert keep last_end.
  induction rest as [| [start end'] rest IH]; intros keep last_end; simpl.
  - destruct (Qltb last_end duration); [reflexivity | now rewrite app_nil_r].
  - destruct (Qltb last_end start).
    + rewrite IH, <- app_assoc. reflexivity.
    + apply IH.
Qed.

Lemma keep_segments_recursive (l : list segment) (duration : Q) :
  keep_segments l duration = keep_from 0 l duration.
Proof. unfold keep_segments. apply (fold_keep_step l [] 0 duration). Qed.

(** ** Sorting *)

Lemma tuple_ltb_false (a b : segment) : tuple_ltb b a = false <-> lex_le a b.
Proof.
  unfold tuple_ltb, lex_le. destruct a as [a1 a2], b as [b1 b2]. simpl.
  cmp; simpl; cmp; split; intros H; try reflexivity; try discriminate; lra.
Qed.

Lemma tuple_ltb_true (a b : segment) : tuple_ltb a b = true -> lex_le a b.
Proof.
  unfold tuple_ltb, lex_le. destruct a as [a1 a2], b as [b1 b2]. simpl.
  cmp; simpl; cmp; intros H; try discriminate; lra.
Qed.

Lemma lex_le_trans (a b c : segment) : lex_le a b -> lex_le b c -> lex_le a c.
Proof. unfold lex_le. lra. Qed.

Lemma lex_le_start (a b : segment) : lex_le a b -> fst a <= fst b.
Proof. unfold lex_le. lra. Qed.

Lemma insert_sorted_perm (x : segment) (l : list segment) :
  Permutation (insert_sorted x l) (x :: l).
Proof.
  induction l as [| y l IH]; simpl; [reflexivity |].
  destruct (tuple_ltb y x); [| reflexivity].
  rewrite IH. apply perm_swap.
Qed.

Lemma sort_perm (l : list segment) : Permutation (sort l) l.
Proof.
  induction l as [| x l IH]; simpl; [reflexivity |].
  rewrite insert_sorted_perm. now constructor.
Qed.

Lemma insert_sorted_sorted (x : segment) (l : list segment) :
  StronglySorted lex_le l -> StronglySorted lex_le (insert_sorted x l).
Proof.
  induction 1 as [| y l Hs IH Hy]; simpl.
  - repeat constructor.
  - destruct (tuple_ltb y x) eqn:E.
    + constructor; [exact IH |].
      rewrite (insert_sorted_perm x l). constructor; [| exact Hy].
      now apply tuple_ltb_true.
    + apply tuple_ltb_false in E.
      constructor; [now constructor |].
      constructor; [exact E |].
      eapply Forall_impl; [exact Hy |].
      intros z Hz. simpl in Hz. now apply lex_le_trans with y.
Qed.

Lemma sort_sorted (l : list segment) : StronglySorted lex_le (sort l).
Proof.
  induction l as [| x l IH]; simpl; [constructor |].
  now apply insert_sorted_sorted.
Qed.

(** a list that is in order is left as it is *)
Lemma sort_of_sorted (l : list segment) : Sorted lex_le l -> sort l = l.
Proof.
  induction 1 as [| x l Hs IH Hx]; simpl; [reflexivity |].
  rewrite IH. destruct Hx as [| y l Hxy]; simpl; [reflexivity |].
  apply tuple_ltb_false in Hxy. now rewrite Hxy.
Qed.

Lemma sort_ascending (l : list segment) : ascending (sort l).
Proof.
  unfold ascending.
  generalize (sort_sorted l). induction 1 as [| x l' Hs IH Hx]; constructor.
  - exact IH.
  - eapply Forall_impl; [exact Hx |]. intros z Hz. now apply lex_le_start.
Qed.

Lemma tuple_ltb_lt (a b : segment) :
  tuple_ltb a b = true ->
  fst a < fst b \/ (fst a == fst b /\ snd a < snd b).
Proof.
  unfold tuple_ltb. destruct a as [a1 a2], b as [b1 b2]. simpl.
  cmp; simpl; cmp; intros H; try discriminate; lra.
Qed.

Lemma same_key_eq (x y : segment) :
  same_key x y = true -> fst x == fst y /\ snd x == snd y.
Proof.
  unfold same_key. rewrite andb_true_iff, !negb_true_iff.
  intros [H1 H2]. apply tuple_ltb_false in H1, H2.
  unfold lex_le in *. lra.
Qed.

(** [sort] is stable: tuples that compare equal keep their order *)
Lemma insert_sorted_stable (x z : segment) (l : list segment) :
  List.filter (same_key x) (insert_sorted z l)
  = List.filter (same_key x) (z :: l).
Proof.
  induction l as [| y l IH]; [reflexivity |].
  cbn [insert_sorted]. destruct (tuple_ltb y z) eqn:E; [| reflexivity].
  cbn [List.filter] in *. rewrite IH.
  destruct (same_key x z) eqn:Ez; [| reflexivity].
  destruct (same_key x y) eqn:Ey; [| reflexivity].
  apply tuple_ltb_lt in E. apply same_key_eq in Ez, Ey. exfalso. lra.
Qed.

Lemma sort_stable (x : segment) (l : list segment) :
  List.filter (same_key x) (sort l) = List.filter (same_key x) l.
Proof.
  induction l as [| z l IH]; [reflexivity |].
  cbn [sort fold_right]. fold (sort l).
  rewrite insert_sorted_stable. cbn [List.filter]. now rewrite IH.
Qed.

Lemma same_key_refl (x : segment) : same_key x x = true.
Proof.
  unfold same_key.
  assert (H : tuple_ltb x x = false) by (apply tuple_ltb_false; right; lra).
  now rewrite H.
Qed.

(** an ordered list is determined by the order in which it lists the
    tuples that compare equal *)
Lemma stable_sorted_unique (s1 s2 : list segment) :
  StronglySorted lex_le s1 -> StronglySorted lex_le s2 ->
  (forall x, List.filter (same_key x) s1 = List.filter (same_key x) s2) ->
  s1 = s2.
Proof.
  intros H1. revert s2.
  induction H1 as [| a s1 Hs1 IH Ha]; intros s2 H2 Hf.
  - destruct s2 as [| b s2]; [reflexivity |].
    specialize (Hf b). cbn [List.filter] in Hf.
    rewrite same_key_refl in Hf. discriminate.
  - destruct H2 as [| b s2 Hs2 Hb].
    { specialize (Hf a). cbn [List.filter] in Hf.
      rewrite same_key_refl in Hf. discriminate. }
    assert (Hab : lex_le a b).
    { assert (Hin : In b (a :: s1)).
      { apply (filter_In (same_key b) b (a :: s1)). rewrite (Hf b).
        cbn [List.filter]. rewrite same_key_refl. now left. }
      destruct Hin as [-> | Hin]; [right; lra |].
      rewrite Forall_forall in Ha. apply Ha. now apply list_elem_of_In. }
    assert (Hba : lex_le b a).
    { assert (Hin : In a (b :: s2)).
      { apply (filter_In (same_key a) a (b :: s2)). rewrite <- (Hf a).
        cbn [List.filter]. rewrite same_key_refl. now left. }
      destruct Hin as [-> | Hin]; [right; lra |].
      rewrite Forall_forall in Hb. apply Hb. now apply list_elem_of_In. }
    assert (Ek : same_key a b = true).
    { unfold same_key. apply tuple_ltb_false in Hab, Hba.
      now rewrite Hab, Hba. }
    pose proof (Hf a) as Hfa. cbn [List.filter] in Hfa.
    rewrite same_key_refl, Ek in Hfa. injection Hfa as <- _.
    f_equal. apply IH; [exact Hs2 |].
    intros x. specialize (Hf x). cbn [List.filter] in Hf.
    destruct (same_key x a); [now injection Hf | exact Hf].
Qed.

(** so [sort] is what any sort that orders the list and is stable returns *)
Lemma sort_characterised (l s : list segment) :
  StronglySorted lex_le s ->
  (forall x, List.filter (same_key x) s = List.filter (same_key x) l) ->
  s = sort l.
Proof.
  intros Hs Hf. apply stable_sorted_unique; [exact Hs | apply sort_sorted |].
  intros x. now rewrite Hf, sort_stable.
Qed.

(** [total] does not depend on the order *)
Lemma total_perm (l l' : list segment) : Permutation l l' -> total l == total l'.
Proof.
  induction 1 as [| x l l' _ IH | x y l | l l' l'' _ IH1 _ IH2]; simpl.
  - reflexivity.
  - rewrite IH. reflexivity.
  - ring.
  - now rewrite IH1.
Qed.

Lemma total_app (l l' : list segment) : total (l ++ l') == total l + total l'.
Proof.
  induction l as [| x l IH]; simpl; [ring | rewrite IH; ring].
Qed.

(** ** The merging loop *)

Lemma merge_from_head (rest : list segment) (cur : segment) :
  exists e tl, merge_from cur rest = (fst cur, e) :: tl /\ snd cur <= e.
Proof.
  revert cur. induction rest as [| seg rest IH]; intros [s e]; simpl.
  - exists e, []. split; [reflexivity | lra].
  - destruct (Qltb e (fst seg)).
    + exists e, (merge_from seg rest). split; [reflexivity | lra].
    + destruct (IH (s, Py.max e (snd seg))) as (e' & tl & -> & He'). simpl in *.
      exists e', tl. split; [reflexivity |].
      pose proof (max_ub e (snd seg)). lra.
Qed.

Lemma merge_from_disjoint (rest : list segment) (cur : segment) :
  disjoint_sorted (merge_from cur rest).
Proof.
  unfold disjoint_sorted. revert cur.
  induction rest as [| seg rest IH]; intros cur; simpl.
  - repeat constructor.
  - destruct (Qltb (snd cur) (fst seg)) eqn:E; [| apply IH].
    apply Qltb_lt in E. constructor; [apply IH |].
    destruct (merge_from_head rest seg) as (e & tl & -> & _).
    constructor. exact E.
Qed.

Lemma ascending_head (a b : segment) (l : list segment) :
  fst a == fst b -> ascending (a :: l) -> ascending (b :: l).
Proof.
  unfold ascending. intros Hab H. inversion H as [| ? ? Hs Hf]; subst.
  constructor; [exact Hs |].
  eapply Forall_impl; [exact Hf |]. intros z Hz. simpl in Hz. lra.
Qed.

Lemma merge_from_ascending (rest : list segment) (cur : segment) :
  ascending (cur :: rest) ->
  ascending (merge_from cur rest)
  /\ Forall (fun m => fst cur <= fst m) (merge_from cur rest).
Proof.
  unfold ascending. revert cur.
  induction rest as [| seg rest IH]; intros cur H; simpl.
  - split; [exact H |]. constructor; [lra | constructor].
  - inversion H as [| ? ? Hs Hf]; subst.
    inversion Hf as [| ? ? Hseg Hrest]; subst.
    destruct (Qltb (snd cur) (fst seg)).
    + destruct (IH seg Hs) as [IHa IHf].
      assert (Hall : Forall (fun m => fst cur <= fst m) (merge_from seg rest)).
      { eapply Forall_impl; [exact IHf |]. intros z Hz. simpl in Hz. lra. }
      split; constructor; try assumption. lra.
    + apply (IH (fst cur, Py.max (snd cur) (snd seg))).
      inversion Hs; subst. now constructor.
Qed.

Lemma merge_from_lex (rest : list segment) (cur : segment) :
  StronglySorted lex_le rest ->
  Forall (fun r => lex_le cur r \/ (fst cur <= fst r /\ fst cur <= snd cur))
    rest ->
  Sorted lex_le (merge_from cur rest).
Proof.
  revert cur. induction rest as [| seg rest IH]; intros cur Hs Hf; simpl.
  - repeat constructor.
  - inversion Hs as [| ? ? Hs' Hseg]; subst.
    inversion Hf as [| ? ? Hc Hf']; subst.
    destruct (Qltb (snd cur) (fst seg)) eqn:E.
    + apply Qltb_lt in E.
      assert (IHs : Sorted lex_le (merge_from seg rest)).
      { apply IH; [exact Hs' |].
        eapply Forall_impl; [exact Hseg |]. intros z Hz. now left. }
      constructor; [exact IHs |].
      destruct (merge_from_head rest seg) as (e & tl & -> & He).
      constructor. unfold lex_le in *. simpl. lra.
    + apply Qltb_ge in E. apply IH; [exact Hs' |].
      pose proof (max_ub (snd cur) (snd seg)) as [Hm _].
      eapply Forall_impl; [exact Hf' |]. intros z Hz. simpl in *.
      right. unfold lex_le in *. lra.
Qed.

Lemma merge_from_fixed (rest : list segment) (cur : segment) :
  disjoint_sorted (cur :: rest) -> merge_from cur rest = cur :: rest.
Proof.
  unfold disjoint_sorted. revert cur.
  induction rest as [| seg rest IH]; intros cur H; simpl; [reflexivity |].
  inversion H as [| ? ? Hs Hh]; subst. inversion Hh as [| ? ? Hlt]; subst.
  apply Qltb_lt in Hlt. rewrite Hlt. now rewrite IH.
Qed.

Lemma merge_sorted_fixed (l : list segment) :
  disjoint_sorted l -> merge_sorted l = l.
Proof. destruct l; [reflexivity | apply merge_from_fixed]. Qed.

Lemma normalize_disjoint (l : list segment) : disjoint_sorted (normalize l).
Proof.
  unfold normalize. rewrite merged_recursive.
  destruct (sort l); simpl; [constructor | apply merge_from_disjoint].
Qed.

Lemma normalize_ascending (l : list segment) : ascending (normalize l).
Proof.
  unfold normalize. rewrite merged_recursive.
  pose proof (sort_ascending l) as H.
  destruct (sort l); simpl; [constructor | now apply merge_from_ascending].
Qed.

Lemma normalize_lex (l : list segment) : Sorted lex_le (normalize l).
Proof.
  unfold normalize. rewrite merged_recursive.
  pose proof (sort_sorted l) as H.
  destruct (sort l); simpl; [constructor |].
  inversion H as [| ? ? Hs Hf]; subst.
  apply merge_from_lex; [exact Hs |].
  eapply Forall_impl; [exact Hf |]. intros z Hz. now left.
Qed.

Lemma inside_refl (a : segment) : inside a a.
Proof. unfold inside. lra. Qed.

Lemma inside_trans (a b c : segment) : inside a b -> inside b c -> inside a c.
Proof. unfold inside. lra. Qed.

(** every range given to the loop lies inside a range of its result *)
Lemma merge_from_inside (rest : list segment) (cur x : segment) :
  ascending (cur :: rest) ->
  inside x cur \/ In x rest ->
  exists m, In m (merge_from cur rest) /\ inside x m.
Proof.
  revert cur. induction rest as [| seg rest IH]; intros cur Ha Hx; simpl.
  - destruct Hx as [Hx | []]. exists cur. split; [now left | exact Hx].
  - pose proof Ha as Ha'. unfold ascending in Ha'.
    inversion Ha' as [| ? ? Hs Hf]; subst.
    inversion Hf as [| ? ? Hseg Hrest]; subst.
    destruct (Qltb (snd cur) (fst seg)) eqn:E.
    + destruct Hx as [Hx | [-> | Hx]].
      * exists cur. split; [now left | exact Hx].
      * destruct (IH x Hs (or_introl (inside_refl x))) as (m & Hm & Hi).
        exists m. split; [now right | exact Hi].
      * destruct (IH seg Hs (or_intror Hx)) as (m & Hm & Hi).
        exists m. split; [now right | exact Hi].
    + apply Qltb_ge in E.
      pose proof (max_ub (snd cur) (snd seg)) as [Hm1 Hm2].
      apply IH.
      * apply ascending_head with cur; [reflexivity |]. unfold ascending.
        inversion Hs; subst. now constructor.
      * destruct Hx as [Hx | [-> | Hx]]; [left | left | now right];
          unfold inside in *; simpl; lra.
Qed.

Lemma normalize_inside (l : list segment) (x : segment) :
  In x l -> exists m, In m (normalize l) /\ inside x m.
Proof.
  intros Hx. unfold normalize. rewrite merged_recursive.
  assert (Hx' : In x (sort l)).
  { eapply Permutation_in; [symmetry; apply sort_perm | exact Hx]. }
  pose proof (sort_ascending l) as Ha.
  destruct (sort l) as [| seg rest]; [destruct Hx' |]. simpl.
  apply merge_from_inside; [exact Ha |].
  destruct Hx' as [-> | Hx']; [left; apply inside_refl | now right].
Qed.

(** in an ascending list whose neighbours are apart, any two entries are
    apart *)
Lemma apart_all (l : list segment) :
  ascending l -> disjoint_sorted l ->
  StronglySorted (fun a b => snd a < fst b) l.
Proof.
  unfold ascending, disjoint_sorted.
  induction 1 as [| x l Hs IH Hx]; intros Hd; constructor.
  - apply IH. now inversion Hd.
  - inversion Hd as [| ? ? Hd' Hh]; subst.
    destruct Hh as [| y l Hxy]; [constructor |].
    inversion Hs as [| ? ? _ Hy]; subst.
    constructor; [exact Hxy |].
    eapply Forall_impl; [exact Hy |]. intros z Hz. simpl in Hz. lra.
Qed.

Lemma apart_cases (l : list segment) (a b : segment) :
  StronglySorted (fun a b => snd a < fst b) l ->
  In a l -> In b l -> a = b \/ snd a < fst b \/ snd b < fst a.
Proof.
  induction 1 as [| x l Hs IH Hx]; intros Ha Hb; [destruct Ha |].
  rewrite Forall_forall in Hx.
  destruct Ha as [-> | Ha], Hb as [-> | Hb].
  - now left.
  - right; left. apply Hx. now apply list_elem_of_In.
  - right; right. apply Hx. now apply list_elem_of_In.
  - now apply IH.
Qed.

(** ** Summed lengths *)

Lemma proper_well_formed (l : list segment) :
  Forall proper l -> Forall well_formed l.
Proof.
  intros H. eapply Forall_impl; [exact H |].
  unfold proper, well_formed. intros z Hz. lra.
Qed.

(** merging [seg] into [cur] does not add length *)
Lemma merge_length (cur seg : segment) :
  well_formed seg -> fst seg <= snd cur ->
  Py.max (snd cur) (snd seg) - fst cur
  <= (snd cur - fst cur) + (snd seg - fst seg).
Proof.
  unfold well_formed. intros Hw Hm.
  destruct (max_cases (snd cur) (snd seg)) as [[H ->] | [H ->]]; lra.
Qed.

(** and loses some when [seg] has a length and starts before [cur] ends *)
Lemma merge_length_strict (cur seg : segment) :
  proper seg -> fst seg < snd cur ->
  Py.max (snd cur) (snd seg) - fst cur
  < (snd cur - fst cur) + (snd seg - fst seg).
Proof.
  unfold proper. intros Hw Hm.
  destruct (max_cases (snd cur) (snd seg)) as [[H ->] | [H ->]]; lra.
Qed.

Lemma merge_from_total (rest : list segment) (cur : segment) :
  well_formed cur -> Forall well_formed rest ->
  total (merge_from cur rest) <= (snd cur - fst cur) + total rest.
Proof.
  revert cur. induction rest as [| seg rest IH]; intros cur Hc Hr; simpl.
  - lra.
  - inversion Hr as [| ? ? Hseg Hrest]; subst.
    destruct (Qltb (snd cur) (fst seg)) eqn:E; simpl.
    + specialize (IH seg Hseg Hrest). lra.
    + apply Qltb_ge in E.
      pose proof (max_ub (snd cur) (snd seg)) as [Hm _].
      assert (Hc' : well_formed (fst cur, Py.max (snd cur) (snd seg))).
      { unfold well_formed in *. simpl. lra. }
      specialize (IH _ Hc' Hrest). simpl in IH.
      pose proof (merge_length cur seg Hseg E). lra.
Qed.

Lemma merge_from_total_reach (rest : list segment) (cur : segment) :
  well_formed cur -> Forall well_formed rest -> ascending rest ->
  reaches cur rest ->
  total (merge_from cur rest) < (snd cur - fst cur) + total rest.
Proof.
  revert cur. induction rest as [| seg rest IH];
    intros cur Hc Hr Ha (y & Hy & Hlt & Hp); [destruct Hy |].
  inversion Hr as [| ? ? Hseg Hrest]; subst.
  unfold ascending in Ha. inversion Ha as [| ? ? Ha' Hf]; subst.
  rewrite Forall_forall in Hf.
  assert (Hm : fst seg < snd cur).
  { destruct Hy as [-> | Hy]; [exact Hlt |].
    apply list_elem_of_In, Hf in Hy. lra. }
  simpl. assert (E : Qltb (snd cur) (fst seg) = false) by (apply Qltb_ge; lra).
  rewrite E.
  pose proof (max_ub (snd cur) (snd seg)) as [Hm1 _].
  assert (Hc' : well_formed (fst cur, Py.max (snd cur) (snd seg))).
  { unfold well_formed in *. simpl. lra. }
  destruct Hy as [-> | Hy].
  - pose proof (merge_from_total rest _ Hc' Hrest) as Ht. simpl in Ht.
    pose proof (merge_length_strict cur y Hp Hlt). lra.
  - assert (Hre : reaches (fst cur, Py.max (snd cur) (snd seg)) rest).
    { exists y. simpl. repeat split; [exact Hy | lra | exact Hp]. }
    specialize (IH _ Hc' Hrest Ha' Hre). simpl in IH.
    assert (Hle : fst seg <= snd cur) by lra.
    pose proof (merge_length cur seg Hseg Hle). lra.
Qed.

Lemma merge_from_total_clash (rest : list segment) (cur : segment) :
  well_formed cur -> Forall well_formed rest -> ascending rest ->
  clash rest ->
  total (merge_from cur rest) < (snd cur - fst cur) + total rest.
Proof.
  revert cur. induction rest as [| seg rest IH];
    intros cur Hc Hr Ha Hcl; [destruct Hcl |].
  inversion Hr as [| ? ? Hseg Hrest]; subst.
  unfold ascending in Ha. inversion Ha as [| ? ? Ha' Hf]; subst.
  simpl. destruct (Qltb (snd cur) (fst seg)) eqn:E; simpl.
  - destruct Hcl as [Hre | Hcl].
    + pose proof (merge_from_total_reach rest seg Hseg Hrest Ha' Hre). lra.
    + specialize (IH seg Hseg Hrest Ha' Hcl). lra.
  - apply Qltb_ge in E.
    pose proof (max_ub (snd cur) (snd seg)) as [Hm1 Hm2].
    assert (Hc' : well_formed (fst cur, Py.max (snd cur) (snd seg))).
    { unfold well_formed in *. simpl. lra. }
    pose proof (merge_length cur seg Hseg E) as Hstep.
    destruct Hcl as [(y & Hy & Hlt & Hp) | Hcl].
    + assert (Hre : reaches (fst cur, Py.max (snd cur) (snd seg)) rest).
      { exists y. simpl. repeat split; [exact Hy | lra | exact Hp]. }
      pose proof (merge_from_total_reach rest _ Hc' Hrest Ha' Hre) as Ht.
      simpl in Ht. lra.
    + specialize (IH _ Hc' Hrest Ha' Hcl). simpl in IH. lra.
Qed.

Lemma merge_sorted_total (l : list segment) :
  Forall well_formed l -> total (merge_sorted l) <= total l.
Proof.
  destruct l as [| seg rest]; simpl; intros H; [lra |].
  inversion H; subst. now apply merge_from_total.
Qed.

Lemma merge_sorted_total_clash (l : list segment) :
  Forall well_formed l -> ascending l -> clash l ->
  total (merge_sorted l) < total l.
Proof.
  destruct l as [| seg rest]; simpl; intros H Ha Hcl; [destruct Hcl |].
  inversion H; subst. unfold ascending in Ha. inversion Ha; subst.
  destruct Hcl; [now apply merge_from_total_reach
                | now apply merge_from_total_clash].
Qed.

Lemma clash_app_r (l1 l2 : list segment) : clash l2 -> clash (l1 ++ l2).
Proof. induction l1; simpl; [trivial | right; auto]. Qed.

(** two overlapping ranges at two places of a list make a clash *)
Lemma clash_of_overlap (s others : list segment) (a b : segment) :
  Permutation s (a :: b :: others) ->
  proper a -> proper b -> overlap a b -> clash s.
Proof.
  intros Hperm Ha Hb [Hab Hba].
  assert (Hin : In a s).
  { eapply Permutation_in; [symmetry; exact Hperm | now left]. }
  destruct (in_split _ _ Hin) as (l1 & l2 & ->).
  assert (Hperm' : Permutation (l1 ++ l2) (b :: others)).
  { apply Permutation_cons_inv with a.
    transitivity (l1 ++ a :: l2); [apply Permutation_middle | exact Hperm]. }
  assert (Hinb : In b (l1 ++ l2)).
  { eapply Permutation_in; [symmetry; exact Hperm' | now left]. }
  apply in_app_or in Hinb. destruct Hinb as [Hinb | Hinb].
  - destruct (in_split _ _ Hinb) as (l3 & l4 & ->).
    rewrite <- app_assoc. simpl. apply clash_app_r. simpl. left.
    exists a. split; [| split; [exact Hab | exact Ha]].
    apply in_or_app. right. now left.
  - apply clash_app_r. simpl. left.
    exists b. split; [exact Hinb | split; [exact Hba | exact Hb]].
Qed.

(** ** The keep loop *)

Lemma chain_of_disjoint (remove : list segment) (cursor duration : Q) :
  disjoint_sorted remove ->
  Forall proper remove ->
  Forall (fun seg => snd seg <= duration) remove ->
  match remove with [] => cursor <= duration | seg :: _ => cursor <= fst seg end ->
  chain cursor remove duration.
Proof.
  unfold disjoint_sorted. intros Hd. revert cursor.
  induction Hd as [| seg rest Hs IH Hh]; intros cursor Hp Hw Hc; simpl.
  - exact Hc.
  - inversion Hp as [| ? ? Hpseg Hprest]; subst.
    inversion Hw as [| ? ? Hwseg Hwrest]; subst.
    repeat split; [exact Hc | exact Hpseg |].
    apply IH; [exact Hprest | exact Hwrest |].
    destruct Hh as [| y rest Hy]; [exact Hwseg | lra].
Qed.

Lemma remove_set_chain (remove : list segment) (D : Q) :
  0 <= D -> disjoint_sorted remove -> Forall proper remove ->
  Forall (fun seg => 0 <= fst seg /\ snd seg <= D) remove ->
  chain 0 remove D.
Proof.
  intros HD Hd Hp Hw. apply chain_of_disjoint; try assumption.
  - eapply Forall_impl; [exact Hw |]. intros z Hz. simpl in Hz. tauto.
  - destruct remove as [| seg rest]; [exact HD |].
    inversion Hw as [| ? ? [H _] _]; subst. exact H.
Qed.

Lemma keep_from_lower (rest : list segment) (cursor duration : Q) :
  chain cursor rest duration ->
  Forall (fun k => cursor <= fst k) (keep_from cursor rest duration).
Proof.
  revert cursor. induction rest as [| [s e] rest IH]; intros cursor; simpl.
  - intros _. cmp; repeat constructor. simpl. lra.
  - intros (Hc & Hse & Hch). simpl in *.
    specialize (IH e Hch).
    assert (Hall : Forall (fun k => cursor <= fst k) (keep_from e rest duration)).
    { eapply Forall_impl; [exact IH |]. intros z Hz. simpl in Hz. lra. }
    cmp; [constructor; [simpl; lra | exact Hall] | exact Hall].
Qed.

Lemma interleave_nil_l (remove : list segment) : interleave [] remove = remove.
Proof. destruct remove; reflexivity. Qed.

Lemma interleave_nil_r (keep : list segment) : interleave keep [] = keep.
Proof. destruct keep; reflexivity. Qed.

(** a remove range that starts before every keep range comes first *)
Lemma interleave_remove_first (keep remove : list segment) (seg : segment) :
  Forall (fun k => fst seg < fst k) keep ->
  interleave keep (seg :: remove) = seg :: interleave keep remove.
Proof.
  intros H. destruct keep as [| k keep]; simpl.
  - now rewrite interleave_nil_l.
  - inversion H as [| ? ? Hk _]; subst.
    apply Qle_bool_gt in Hk. now rewrite Hk.
Qed.

Lemma interleave_perm (keep remove : list segment) :
  Permutation (interleave keep remove) (keep ++ remove).
Proof.
  revert remove. induction keep as [| k keep IHk]; intros remove.
  - rewrite interleave_nil_l. reflexivity.
  - induction remove as [| r remove IHr].
    + rewrite interleave_nil_r, app_nil_r. reflexivity.
    + simpl. destruct (Qle_bool (fst k) (fst r)).
      * constructor. apply IHk.
      * simpl in IHr. rewrite IHr.
        change (Permutation (r :: (k :: keep) ++ remove)
                  ((k :: keep) ++ r :: remove)).
        apply Permutation_middle.
Qed.

Lemma keep_from_tiles (rest : list segment) (cursor duration : Q) :
  chain cursor rest duration ->
  tiles cursor duration (interleave (keep_from cursor rest duration) rest).
Proof.
  revert cursor. induction rest as [| [s e] rest IH]; intros cursor.
  - simpl. intros Hc. cmp; simpl; lra.
  - intros (Hc & Hse & Hch). simpl in Hc, Hse, Hch.
    pose proof (keep_from_lower rest e duration Hch) as Hlow.
    assert (Hfirst : interleave (keep_from e rest duration) ((s, e) :: rest)
                     = (s, e) :: interleave (keep_from e rest duration) rest).
    { apply interleave_remove_first.
      eapply Forall_impl; [exact Hlow |]. intros z Hz. simpl in *. lra. }
    specialize (IH e Hch). cbn [keep_from].
    destruct (Qltb cursor s) eqn:E.
    + apply Qltb_lt in E.
      assert (Hle : Qle_bool cursor s = true) by (apply Qle_bool_iff; lra).
      assert (Hkeep : interleave ((cursor, s) :: keep_from e rest duration)
                        ((s, e) :: rest)
                      = (cursor, s)
                        :: interleave (keep_from e rest duration)
                             ((s, e) :: rest)).
      { simpl. now rewrite Hle. }
      rewrite Hkeep, Hfirst. simpl. repeat split; try lra. exact IH.
    + apply Qltb_ge in E. rewrite Hfirst. simpl.
      repeat split; try lra. exact IH.
Qed.

Lemma keep_from_total (rest : list segment) (cursor duration : Q) :
  chain cursor rest duration ->
  total (keep_from cursor rest duration) + total rest == duration - cursor.
Proof.
  revert cursor. induction rest as [| [s e] rest IH]; intros cursor; simpl.
  - intros Hc. cmp; simpl; lra.
  - intros (Hc & Hse & Hch). simpl in *. specialize (IH e Hch).
    cmp; simpl; lra.
Qed.

(** what [tiles] says, point by point: the points of [[lo, hi)] are the
    points of the ranges, and each lies in one range only *)
Lemma tiles_bounds (l : list segment) (lo hi : Q) : tiles lo hi l -> lo <= hi.
Proof.
  revert lo. induction l as [| seg l IH]; intros lo; simpl.
  - lra.
  - intros (H1 & H2 & H3). apply IH in H3. lra.
Qed.

Lemma tiles_covers (l : list segment) (lo hi t : Q) :
  tiles lo hi l ->
  (lo <= t /\ t < hi) <-> (exists seg, In seg l /\ covers seg t).
Proof.
  revert lo. induction l as [| seg l IH]; intros lo; simpl.
  - intros H. split; [lra | intros (? & [] & _)].
  - intros (H1 & H2 & H3). pose proof (tiles_bounds _ _ _ H3) as Hb.
    specialize (IH _ H3). split.
    + intros [Hlo Hhi]. destruct (Qlt_le_dec t (snd seg)) as [Hlt | Hge].
      * exists seg. split; [now left | unfold covers; lra].
      * destruct IH as [IH _]. destruct IH as (seg' & Hin & Hcov); [lra |].
        exists seg'. split; [now right | exact Hcov].
    + intros (seg' & [<- | Hin] & Hcov).
      * unfold covers in Hcov. lra.
      * destruct IH as [_ IH].
        destruct IH as [Hlo Hhi]; [exists seg'; now split |]. lra.
Qed.

Lemma tiles_apart (l : list segment) (lo hi : Q) :
  tiles lo hi l -> StronglySorted (fun a b => snd a <= fst b) l.
Proof.
  revert lo. induction l as [| seg l IH]; intros lo; simpl; [constructor |].
  intros (H1 & H2 & H3). constructor; [now apply IH with (snd seg) |].
  clear IH H1 H2. revert H3. generalize (snd seg) as c.
  induction l as [| x l IHl]; intros c; simpl; [constructor |].
  intros (H1 & H2 & H3). constructor; [lra |].
  specialize (IHl _ H3).
  eapply Forall_impl; [exact IHl |]. intros z Hz. simpl in Hz. lra.
Qed.

(** any two entries of the result are apart, not only neighbours *)
Lemma normalize_apart (l : list segment) :
  StronglySorted (fun a b => snd a < fst b) (normalize l).
Proof.
  apply apart_all; [apply normalize_ascending | apply normalize_disjoint].
Qed.

(** ** Interval normalisation: the claims *)

Example normalize_example :
  normalize [(2, 5); (4, 8); (10, 12)] = [(2, 8); (10, 12)].
Proof. reflexivity. Qed.

Example normalize_unsorted :
  normalize [(10, 12); (4, 8); (2, 5)] = [(2, 8); (10, 12)].
Proof. reflexivity. Qed.

Example keep_segments_example :
  keep_segments [(2, 8); (10, 12)] 15 = [(0, 2); (8, 10); (12, 15)].
Proof. reflexivity. Qed.

(** C3, as stated, fails: the ranges (0,1) and (1,2) touch at 1 and do not
    overlap, and the normalisation of remove segments returns the single
    range (0,2); neither of the two is an entry of the result. *)
Lemma C3_touching_ranges_not_kept :
  touch (0, 1) (1, 2) /\ ~ overlap (0, 1) (1, 2)
  /\ normalize [(0, 1); (1, 2)] = [(0, 2)]
  /\ ~ In (0, 1) (normalize [(0, 1); (1, 2)])
  /\ ~ In (1, 2) (normalize [(0, 1); (1, 2)]).
Proof.
  split; [numerals |]. split.
  { unfold overlap. simpl. lra. }
  split; [reflexivity |].
  split; intros [H | []]; discriminate H.
Qed.

(** C3, amended: when two ranges of the input touch at an exact boundary
    ([a.end == b.start]), the normalisation used for remove segments
    merges them: one entry of its result contains both. *)
Theorem C3_touching_ranges_merged (l : list segment) (a b : segment) :
  In a l -> In b l -> well_formed a -> well_formed b -> touch a b ->
  exists m, In m (normalize l) /\ inside a m /\ inside b m.
Proof.
  intros Ha Hb Hwa Hwb Ht.
  destruct (normalize_inside l a Ha) as (ma & Hma & Hia).
  destruct (normalize_inside l b Hb) as (mb & Hmb & Hib).
  destruct (apart_cases _ ma mb (normalize_apart l) Hma Hmb) as [-> | [H | H]].
  - exists mb. auto.
  - exfalso. unfold inside, touch, well_formed in *. lra.
  - exfalso. unfold inside, touch, well_formed in *. lra.
Qed.

Lemma C3_touching_ranges_merged_witness :
  exists m, In m (normalize [(0, 1); (1, 2)])
            /\ inside (0, 1) m /\ inside (1, 2) m.
Proof.
  apply (C3_touching_ranges_merged [(0, 1); (1, 2)] (0, 1) (1, 2)).
  - simpl. auto.
  - simpl. auto.
  - numerals.
  - numerals.
  - numerals.
Defined.

(** C5: whatever the input list, the result of the normalisation (sort,
    then merge) is ascending by start, and each of its ranges ends
    strictly before the next one starts; so does each range before any
    later one. *)
Theorem C5_normalize_sorted_disjoint (l : list segment) :
  ascending (normalize l)
  /\ disjoint_sorted (normalize l)
  /\ StronglySorted (fun a b => snd a < fst b) (normalize l).
Proof.
  split; [apply normalize_ascending |].
  split; [apply normalize_disjoint | apply normalize_apart].
Qed.

(** C7: normalising a second time changes nothing, for every input. *)
Theorem C7_normalize_idempotent (l : list segment) :
  normalize (normalize l) = normalize l.
Proof.
  unfold normalize at 1.
  rewrite (sort_of_sorted _ (normalize_lex l)), merged_recursive.
  apply merge_sorted_fixed, normalize_disjoint.
Qed.

(** ** Mute reconciliation: the claim *)

Example reconcile_example :
  reconcile [(0, 5); (20, 30)] [(3, 8)] = [(0, 8); (20, 30)].
Proof. reflexivity. Qed.

(** C9: for mute ranges of positive length, the summed length of the
    reconciled set is at most the sum of the summed lengths of the two
    inputs, and strictly less when a range of the EDL overlaps a range
    typed in. *)
Theorem C9_reconcile_total (edl interactive : list segment) :
  Forall proper edl -> Forall proper interactive ->
  total (reconcile edl interactive) <= total edl + total interactive
  /\ ((exists a b, In a edl /\ In b interactive /\ overlap a b) ->
      total (reconcile edl interactive) < total edl + total interactive).
Proof.
  intros He Hi. unfold reconcile.
  rewrite merged_segments_merged, merged_recursive.
  pose proof (sort_perm (edl ++ interactive)) as Hperm.
  assert (Hp : Forall proper (sort (edl ++ interactive))).
  { rewrite Hperm. apply Forall_app. now split. }
  pose proof (proper_well_formed _ Hp) as Hw.
  pose proof (total_perm _ _ Hperm) as Ht. rewrite total_app in Ht.
  split.
  - pose proof (merge_sorted_total _ Hw). lra.
  - intros (a & b & Ha & Hb & Hov).
    destruct (in_split _ _ Ha) as (e1 & e2 & ->).
    destruct (in_split _ _ Hb) as (i1 & i2 & ->).
    apply Forall_app in He. destruct He as [_ He].
    apply Forall_app in Hi. destruct Hi as [_ Hi].
    inversion He; subst. inversion Hi; subst.
    assert (Hcl : clash (sort ((e1 ++ a :: e2) ++ i1 ++ b :: i2))).
    { apply clash_of_overlap with (others := e1 ++ e2 ++ i1 ++ i2) (a := a) (b := b);
        try assumption.
      rewrite Hperm, <- app_assoc. simpl.
      rewrite <- Permutation_middle. constructor.
      rewrite !app_assoc. rewrite <- Permutation_middle.
      now rewrite <- !app_assoc. }
    pose proof (merge_sorted_total_clash _ Hw (sort_ascending _) Hcl). lra.
Qed.

Lemma C9_reconcile_total_witness :
  total (reconcile [(0, 5)] [(3, 8)]) <= total [(0, 5)] + total [(3, 8)]
  /\ total (reconcile [(0, 5)] [(3, 8)]) < total [(0, 5)] + total [(3, 8)].
Proof.
  destruct (C9_reconcile_total [(0, 5)] [(3, 8)]) as [Hle Hlt].
  - constructor; [numerals | constructor].
  - constructor; [numerals | constructor].
  - split; [exact Hle |]. apply Hlt. exists (0, 5), (3, 8).
    split; [now left |]. split; [now left |]. split; numerals.
Defined.

(** the hypothesis on the ranges is needed: a range whose end is before
    its start, which [load_edl_csv] lets through on a [mute_audio] row,
    makes the reconciled set longer than the inputs together *)
Example reconcile_ill_formed :
  reconcile [(5, 1)] [(0, 10)] = [(0, 10)]
  /\ total [(5, 1)] + total [(0, 10)] < total (reconcile [(5, 1)] [(0, 10)]).
Proof. split; [reflexivity | numerals]. Qed.

(** ** Keep segments: the claim *)

(** C4: for a remove set that is disjoint, ascending, made of ranges of
    positive length inside [[0, D]], the keep ranges put together with
    the remove ranges, in ascending order, cut [[0, D)] into consecutive
    pieces without gap or overlap, and the lengths of the keep ranges plus
    those of the remove ranges sum to [D]; with nothing to remove and
    [D > 0] the keep ranges are the single range [(0, D)]. *)
Theorem C4_keep_segments_tile (remove : list segment) (D : Q) :
  0 <= D ->
  disjoint_sorted remove ->
  Forall proper remove ->
  Forall (fun seg => 0 <= fst seg /\ snd seg <= D) remove ->
  Permutation (interleave (keep_segments remove D) remove)
    (keep_segments remove D ++ remove)
  /\ tiles 0 D (interleave (keep_segments remove D) remove)
  /\ total (keep_segments remove D) + total remove == D
  /\ (0 < D -> keep_segments [] D = [(0, D)]).
Proof.
  intros HD Hd Hp Hw.
  pose proof (remove_set_chain remove D HD Hd Hp Hw) as Hch.
  rewrite keep_segments_recursive.
  split; [apply interleave_perm |].
  split; [now apply keep_from_tiles |].
  split.
  - rewrite (keep_from_total remove 0 D Hch). ring.
  - intros HD'. rewrite keep_segments_recursive. simpl.
    apply Qltb_lt in HD'. now rewrite HD'.
Qed.

Lemma C4_keep_segments_tile_witness :
  Permutation (interleave (keep_segments [(2, 8); (10, 12)] 15) [(2, 8); (10, 12)])
    (keep_segments [(2, 8); (10, 12)] 15 ++ [(2, 8); (10, 12)])
  /\ tiles 0 15 (interleave (keep_segments [(2, 8); (10, 12)] 15) [(2, 8); (10, 12)])
  /\ total (keep_segments [(2, 8); (10, 12)] 15) + total [(2, 8); (10, 12)] == 15
  /\ keep_segments [] 15 = [(0, 15)].
Proof.
  destruct (C4_keep_segments_tile [(2, 8); (10, 12)] 15)
    as (Hperm & Htiles & Htotal & Hnone).
  - numerals.
  - repeat constructor; numerals.
  - repeat constructor; numerals.
  - repeat constructor; numerals.
  - split; [exact Hperm |]. split; [exact Htiles |].
    split; [exact Htotal |]. apply Hnone. numerals.
Defined.

Lemma merge_from_validated (rest : list segment) (cur : segment) (D : Q) :
  validated D cur -> Forall (validated D) rest ->
  Forall (validated D) (merge_from cur rest).
Proof.
  revert cur. induction rest as [| seg rest IH]; intros cur Hc Hr; simpl.
  - now constructor.
  - inversion Hr as [| ? ? Hseg Hrest]; subst.
    destruct (Qltb (snd cur) (fst seg)).
    + constructor; [exact Hc | now apply IH].
    + apply IH; [| exact Hrest].
      unfold validated in *. simpl.
      destruct (max_cases (snd cur) (snd seg)) as [[H ->] | [H ->]]; lra.
Qed.

Lemma normalize_validated (l : list segment) (D : Q) :
  Forall (validated D) l -> Forall (validated D) (normalize l).
Proof.
  intros H. unfold normalize. rewrite merged_recursive.
  assert (Hs : Forall (validated D) (sort l)) by now rewrite sort_perm.
  destruct (sort l) as [| seg rest]; simpl; [constructor |].
  inversion Hs; subst. now apply merge_from_validated.
Qed.

(** X4: from the checked ranges to the clips.  The remove set that the
    script gives to the keep loop is the normalisation of ranges that
    satisfy [0 <= start < end <= duration]: the keep ranges and the
    remove set tile the timeline, and their lengths add up to the
    duration. *)
Corollary keep_segments_of_normalized (l : list segment) (D : Q) :
  0 <= D -> Forall (validated D) l ->
  tiles 0 D (interleave (keep_segments (normalize l) D) (normalize l))
  /\ total (keep_segments (normalize l) D) + total (normalize l) == D.
Proof.
  intros HD Hl. pose proof (normalize_validated l D Hl) as Hn.
  assert (Hch : chain 0 (normalize l) D).
  { apply remove_set_chain; [exact HD | apply normalize_disjoint | |];
      (eapply Forall_impl; [exact Hn |]); unfold validated, proper;
      intros z Hz; simpl; lra. }
  rewrite keep_segments_recursive. split.
  - now apply keep_from_tiles.
  - rewrite (keep_from_total _ 0 D Hch). ring.
Qed.

(** the pieces, point by point: a time is in [[0, D)] exactly when a keep
    or a remove range covers it *)
Corollary keep_segments_cover (remove : list segment) (D t : Q) :
  0 <= D -> disjoint_sorted remove -> Forall proper remove ->
  Forall (fun seg => 0 <= fst seg /\ snd seg <= D) remove ->
  (0 <= t /\ t < D)
  <-> (exists seg, In seg (keep_segments remove D ++ remove) /\ covers seg t).
Proof.
  intros HD Hd Hp Hw.
  pose proof (remove_set_chain remove D HD Hd Hp Hw) as Hch.
  rewrite keep_segments_recursive.
  rewrite (tiles_covers _ 0 D t (keep_from_tiles remove 0 D Hch)).
  split; intros (seg & Hin & Hc); exists seg; (split; [| exact Hc]).
  - eapply Permutation_in; [apply interleave_perm | exact Hin].
  - eapply Permutation_in; [symmetry; apply interleave_perm | exact Hin].
Qed.

(** ** The timestamp parser: the claims *)

Lemma eqb_false_ne (s t : string) : s <> t -> String.eqb s t = false.
Proof.
  intros H. destruct (String.eqb s t) eqn:E; [| reflexivity].
  apply String.eqb_eq in E. contradiction.
Qed.

(** without the separator, [split] returns the text as its only part *)
Lemma split_no_sep (sep : ascii) (s : string) :
  PyStr.contains sep s = false -> PyStr.split sep s = [s].
Proof.
  induction s as [| c s IH]; simpl; [reflexivity |].
  destruct (Ascii.eqb c sep); [discriminate |].
  intros H. now rewrite (IH H).
Qed.

Lemma split_two_parts (sep : ascii) (s : string) (p : string) (ps : list string) :
  PyStr.split sep s = p :: ps -> ps <> [] -> PyStr.contains sep s = true.
Proof.
  intros Hs Hps. destruct (PyStr.contains sep s) eqn:E; [reflexivity |].
  rewrite (split_no_sep _ _ E) in Hs. congruence.
Qed.

Lemma keyword_no_sep (s : string) :
  PyStr.contains ":" s = true -> s <> "start" /\ s <> "end".
Proof. split; intros ->; discriminate. Qed.

Lemma parse_end (py_float : string -> option Q) (d : option Q) :
  parse_timestamp_string py_float "end" d = Ok d.
Proof. reflexivity. Qed.

Lemma parse_ignores_duration (py_float : string -> option Q) (s : string)
    (d1 d2 : option Q) :
  PyStr.lower (PyStr.strip s) <> "end" ->
  parse_timestamp_string py_float s d1 = parse_timestamp_string py_float s d2.
Proof.
  intros H. unfold parse_timestamp_string.
  now rewrite (eqb_false_ne _ _ H).
Qed.

Lemma parse_plain (py_float : string -> option Q) (s : string) (d : option Q)
    (v : Q) :
  PyStr.lower (PyStr.strip s) <> "start" ->
  PyStr.lower (PyStr.strip s) <> "end" ->
  PyStr.contains ":" (PyStr.lower (PyStr.strip s)) = false ->
  py_float (PyStr.lower (PyStr.strip s)) = Some v ->
  parse_timestamp_string py_float s d = Ok (Some v).
Proof.
  intros H1 H2 H3 H4. unfold parse_timestamp_string.
  now rewrite (eqb_false_ne _ _ H1), (eqb_false_ne _ _ H2), H3, H4.
Qed.

Lemma parse_mm_ss_parts (py_float : string -> option Q) (s a b : string)
    (d : option Q) (m sec : Q) :
  PyStr.split ":" (PyStr.lower (PyStr.strip s)) = [a; b] ->
  py_float a = Some m -> py_float b = Some sec ->
  parse_timestamp_string py_float s d = Ok (Some (m * 60 + sec)).
Proof.
  intros Hs Ha Hb. unfold parse_timestamp_string.
  assert (Hc := split_two_parts _ _ _ _ Hs ltac:(discriminate)).
  destruct (keyword_no_sep _ Hc) as [H1 H2].
  rewrite (eqb_false_ne _ _ H1), (eqb_false_ne _ _ H2), Hc, Hs.
  simpl. unfold Py.float. now rewrite Ha, Hb.
Qed.

Lemma parse_hh_mm_ss_parts (py_float : string -> option Q) (s a b c : string)
    (d : option Q) (h m sec : Q) :
  PyStr.split ":" (PyStr.lower (PyStr.strip s)) = [a; b; c] ->
  py_float a = Some h -> py_float b = Some m -> py_float c = Some sec ->
  parse_timestamp_string py_float s d = Ok (Some (h * 3600 + m * 60 + sec)).
Proof.
  intros Hs Ha Hb Hc'. unfold parse_timestamp_string.
  assert (Hc := split_two_parts _ _ _ _ Hs ltac:(discriminate)).
  destruct (keyword_no_sep _ Hc) as [H1 H2].
  rewrite (eqb_false_ne _ _ H1), (eqb_false_ne _ _ H2), Hc, Hs.
  simpl. unfold Py.float. now rewrite Ha, Hb, Hc'.
Qed.

(** C2, as stated, fails: with no duration, ["end"] does not raise; the
    call returns [None]. *)
Lemma C2_end_without_duration_does_not_fail :
  parse_timestamp_string Literal.float_literal "end" None = Ok None
  /\ ~ raises (parse_timestamp_string Literal.float_literal "end" None).
Proof. split; [reflexivity | intros []]. Qed.

(** C2, amended: applied to ["end"], [parse_timestamp_string] returns its
    duration argument as it is: the duration when there is one (42.0 for
    42.0), and [None], without raising, when there is none. *)
Theorem C2_end_returns_duration_argument (py_float : string -> option Q) :
  (forall d : option Q, parse_timestamp_string py_float "end" d = Ok d)
  /\ parse_timestamp_string py_float "end" (Some 42) = Ok (Some 42)
  /\ parse_timestamp_string py_float "end" None = Ok None.
Proof. split; [apply parse_end | split; apply parse_end]. Qed.

(** ** The loader: rows *)

Lemma load_rows_lenient (body : gmap string (option string) -> result operation)
    (rows : list (gmap string (option string))) (row_idx : nat)
    (operations : list operation) (printed : list (nat * exn)) :
  load_rows body false row_idx rows operations printed
  = (Ok (operations ++ oks (map body rows)),
     printed ++ failures row_idx (map body rows)).
Proof.
  revert row_idx operations printed.
  induction rows as [| row rows IH]; intros row_idx operations printed; simpl.
  - now rewrite !app_nil_r.
  - destruct (body row) as [op | e]; rewrite IH, <- app_assoc; reflexivity.
Qed.

Lemma load_rows_strict_ok (body : gmap string (option string) -> result operation)
    (rows : list (gmap string (option string))) (row_idx : nat)
    (operations : list operation) (printed : list (nat * exn)) :
  Forall (fun row => ~ raises (body row)) rows ->
  load_rows body true row_idx rows operations printed
  = (Ok (operations ++ oks (map body rows)), printed).
Proof.
  intros H. revert row_idx operations.
  induction H as [| row rows Hrow _ IH]; intros row_idx operations; simpl.
  - now rewrite app_nil_r.
  - destruct (body row) as [op | e]; [| destruct Hrow; exact I].
    rewrite IH, <- app_assoc. reflexivity.
Qed.

Lemma load_rows_strict_fail (body : gmap string (option string) -> result operation)
    (pre post : list (gmap string (option string)))
    (row : gmap string (option string)) (e : exn) (row_idx : nat)
    (operations : list operation) (printed : list (nat * exn)) :
  Forall (fun row => ~ raises (body row)) pre ->
  body row = Raise e ->
  load_rows body true row_idx (pre ++ row :: post) operations printed
  = (Raise (ValueError (Error_in_row (row_idx + length pre) e)), printed).
Proof.
  intros H Hrow. revert row_idx operations.
  induction H as [| r pre Hr _ IH]; intros row_idx operations; simpl.
  - rewrite Hrow. now rewrite Nat.add_0_r.
  - destruct (body r) as [op | e']; [| destruct Hr; exact I].
    rewrite IH.
    replace (S row_idx + length pre)%nat with (row_idx + S (length pre))%nat
      by lia.
    reflexivity.
Qed.

Lemma failures_lookup {A : Type} (rs : list (result A)) (row_idx i : nat)
    (e : exn) :
  rs !! i = Some (Raise e) -> In ((row_idx + i)%nat, e) (failures row_idx rs).
Proof.
  revert row_idx i. induction rs as [| r rs IH]; intros row_idx i; [easy |].
  destruct i as [| i]; simpl.
  - intros [= ->]. rewrite Nat.add_0_r. now left.
  - intros H. apply (IH (S row_idx)) in H.
    replace (row_idx + S i)%nat with (S row_idx + i)%nat by lia.
    destruct r; [exact H | now right].
Qed.

Lemma failures_inv {A : Type} (rs : list (result A)) (row_idx k : nat)
    (e : exn) :
  In (k, e) (failures row_idx rs) ->
  exists i, k = (row_idx + i)%nat /\ rs !! i = Some (Raise e).
Proof.
  revert row_idx. induction rs as [| r rs IH]; intros row_idx; [easy |].
  simpl. destruct r as [x | e'].
  - intros H. destruct (IH _ H) as (i & -> & Hi).
    exists (S i). split; [lia | exact Hi].
  - intros [[= <- <-] | H].
    + exists 0%nat. split; [lia | reflexivity].
    + destruct (IH _ H) as (i & -> & Hi).
      exists (S i). split; [lia | exact Hi].
Qed.

(** C6: with [strict=False], [load_edl_csv] returns the operations of the
    rows that load, in the order of the file, and prints for each row that
    fails a line with its index counted from 1; with [strict=True] it
    raises at the first row that fails, with that index.  On three rows
    that load and a [remove] row without [record_out], this is three
    operations and one line, or an error naming that row. *)
Theorem C6_load_edl_csv_row_failures (py_float : string -> option Q)
    (rows : list (gmap string (option string))) (video_duration : Q) :
  V1.load_edl_csv py_float rows video_duration false
  = (Ok (oks (map (V1.parse_row py_float video_duration) rows)),
     failures 1 (map (V1.parse_row py_float video_duration) rows))
  /\ (forall i row e,
        rows !! i = Some row ->
        V1.parse_row py_float video_duration row = Raise e ->
        In (S i, e) (snd (V1.load_edl_csv py_float rows video_duration false)))
  /\ (forall pre row post e,
        rows = pre ++ row :: post ->
        Forall (fun r => ~ raises (V1.parse_row py_float video_duration r)) pre ->
        V1.parse_row py_float video_duration row = Raise e ->
        V1.load_edl_csv py_float rows video_duration true
        = (Raise (ValueError (Error_in_row (S (length pre)) e)), []))
  /\ V1.load_edl_csv Literal.float_literal example_rows 60 false
     = (Ok example_operations,
        [(2%nat, ValueError (Missing_record_in_or_record_out "remove"))])
  /\ V1.load_edl_csv Literal.float_literal example_rows 60 true
     = (Raise (ValueError (Error_in_row 2
                 (ValueError (Missing_record_in_or_record_out "remove")))),
        []).
Proof.
  unfold V1.load_edl_csv. split; [apply load_rows_lenient |].
  split.
  { intros i row e Hi He. rewrite load_rows_lenient. simpl.
    apply (failures_lookup _ 1 i e).
    rewrite list_lookup_fmap, Hi. simpl. now rewrite He. }
  split.
  { intros pre row post e -> Hpre He.
    now rewrite (load_rows_strict_fail _ pre post row e 1 [] [] Hpre He). }
  split; vm_compute; reflexivity.
Qed.

Lemma C6_load_edl_csv_row_failures_witness :
  In (2%nat, ValueError (Missing_record_in_or_record_out "remove"))
    (snd (V1.load_edl_csv Literal.float_literal example_rows 60 false))
  /\ V1.load_edl_csv Literal.float_literal example_rows 60 true
     = (Raise (ValueError (Error_in_row 2
                 (ValueError (Missing_record_in_or_record_out "remove")))),
        []).
Proof.
  destruct (C6_load_edl_csv_row_failures Literal.float_literal example_rows 60)
    as (_ & Hlog & Hstrict & _).
  split.
  - apply (Hlog 1%nat
             (row_of [("action", "remove"); ("record_in", "6");
                      ("record_out", "")])).
    + reflexivity.
    + vm_compute. reflexivity.
  - apply (Hstrict
             [row_of [("action", "remove"); ("record_in", "0");
                      ("record_out", "5")]]
             (row_of [("action", "remove"); ("record_in", "6");
                      ("record_out", "")])
             [row_of [("action", "keep"); ("record_in", "0:10");
                      ("record_out", "end")];
              row_of [("action", "mute_audio"); ("record_in", "30");
                      ("record_out", "40")]]).
    + reflexivity.
    + constructor; [| constructor]. vm_compute. intros [].
    + vm_compute. reflexivity.
Defined.

(** the same holds of the loader of [PyClipper_Beta_AudioOptions.py],
    whose loop is the same *)
Lemma Beta_load_edl_csv_lenient (py_float : string -> option Q)
    (rows : list (gmap string (option string))) (video_duration : Q) :
  Beta.load_edl_csv py_float rows video_duration false
  = (Ok (oks (map (Beta.parse_row py_float video_duration) rows)),
     failures 1 (map (Beta.parse_row py_float video_duration) rows)).
Proof. apply load_rows_lenient. Qed.

(** ** The loader: one row of [PyClipper_v1.py] *)

Section V1_rows.

Variable py_float : string -> option Q.
Variable video_duration : Q.
Variable row : gmap string (option string).
Variable a : string.
Variables r_in r_out : option Q.
Hypothesis Haction : Row.get row "action" "" = Some a.
Hypothesis Hin : record_cell py_float row "record_in" video_duration = Ok r_in.
Hypothesis Hout : record_cell py_float row "record_out" video_duration = Ok r_out.

(** a row whose action is neither [remove] nor [keep] loads with the
    values of its cells, whatever they are *)
Lemma V1_other_action_loads :
  PyStr.lower (PyStr.strip a) <> "remove" ->
  PyStr.lower (PyStr.strip a) <> "keep" ->
  V1.parse_row py_float video_duration row
  = Ok {| action := PyStr.lower (PyStr.strip a);
          record_in := r_in; record_out := r_out; insert := None |}.
Proof.
  intros H1 H2. unfold V1.parse_row. rewrite Haction. run.
  rewrite Hin, Hout. run.
  now rewrite (eqb_false_ne _ _ H1), (eqb_false_ne _ _ H2).
Qed.

Lemma V1_remove_keep_checked :
  PyStr.lower (PyStr.strip a) = "remove" \/ PyStr.lower (PyStr.strip a) = "keep" ->
  V1.parse_row py_float video_duration row
  = match r_in, r_out with
    | Some x, Some y =>
        if in_timeline x y video_duration
        then Ok {| action := PyStr.lower (PyStr.strip a);
                   record_in := r_in; record_out := r_out; insert := None |}
        else Raise (ValueError (Invalid_time_range x y))
    | _, _ =>
        Raise (ValueError
                 (Missing_record_in_or_record_out (PyStr.lower (PyStr.strip a))))
    end.
Proof.
  intros H. unfold V1.parse_row. rewrite Haction. run.
  rewrite Hin, Hout. run.
  assert (E : String.eqb (PyStr.lower (PyStr.strip a)) "remove"
              || String.eqb (PyStr.lower (PyStr.strip a)) "keep" = true).
  { destruct H as [-> | ->]; reflexivity. }
  rewrite E. destruct r_in as [x |], r_out as [y |]; try reflexivity.
  destruct (in_timeline x y video_duration); reflexivity.
Qed.

Lemma V1_remove_keep_out_of_range (x y : Q) :
  PyStr.lower (PyStr.strip a) = "remove" \/ PyStr.lower (PyStr.strip a) = "keep" ->
  r_in = Some x -> r_out = Some y ->
  ~ (0 <= x /\ x < y /\ y <= video_duration) ->
  V1.parse_row py_float video_duration row
  = Raise (ValueError (Invalid_time_range x y)).
Proof.
  intros H Hx Hy Hr. rewrite (V1_remove_keep_checked H). rewrite Hx, Hy.
  destruct (in_timeline x y video_duration) eqn:E; [| reflexivity].
  apply in_timeline_iff in E. contradiction.
Qed.

End V1_rows.

(** C10: [parse_timestamp_string] checks neither sign nor range.  A text
    other than ["end"] gives the same result whatever the duration; a
    text that [float] reads, or whose two or three parts between colons
    [float] reads, gives the number computed from it (["-5"] gives -5 and
    ["90:00"] gives 5400, whatever the duration).  The row parser is where
    a range is checked, and for [remove] and [keep] rows only: a row with
    another action loads with the values of its cells as they are. *)
Theorem C10_timestamps_not_range_checked (py_float : string -> option Q) :
  (forall s d1 d2,
      PyStr.lower (PyStr.strip s) <> "end" ->
      parse_timestamp_string py_float s d1 = parse_timestamp_string py_float s d2)
  /\ (forall s d v,
        PyStr.lower (PyStr.strip s) <> "start" ->
        PyStr.lower (PyStr.strip s) <> "end" ->
        PyStr.contains ":" (PyStr.lower (PyStr.strip s)) = false ->
        py_float (PyStr.lower (PyStr.strip s)) = Some v ->
        parse_timestamp_string py_float s d = Ok (Some v))
  /\ (forall s a b d m sec,
        PyStr.split ":" (PyStr.lower (PyStr.strip s)) = [a; b] ->
        py_float a = Some m -> py_float b = Some sec ->
        parse_timestamp_string py_float s d = Ok (Some (m * 60 + sec)))
  /\ (forall s a b c d h m sec,
        PyStr.split ":" (PyStr.lower (PyStr.strip s)) = [a; b; c] ->
        py_float a = Some h -> py_float b = Some m -> py_float c = Some sec ->
        parse_timestamp_string py_float s d
        = Ok (Some (h * 3600 + m * 60 + sec)))
  /\ (forall d, parse_timestamp_string Literal.float_literal "-5" d
                = Ok (Some (-5)))
  /\ (forall d, parse_timestamp_string Literal.float_literal "90:00" d
                = Ok (Some 5400))
  /\ (forall video_duration row a r_in r_out,
        Row.get row "action" "" = Some a ->
        record_cell py_float row "record_in" video_duration = Ok r_in ->
        record_cell py_float row "record_out" video_duration = Ok r_out ->
        (PyStr.lower (PyStr.strip a) <> "remove" ->
         PyStr.lower (PyStr.strip a) <> "keep" ->
         V1.parse_row py_float video_duration row
         = Ok {| action := PyStr.lower (PyStr.strip a);
                 record_in := r_in; record_out := r_out; insert := None |})
        /\ (forall x y,
              PyStr.lower (PyStr.strip a) = "remove"
              \/ PyStr.lower (PyStr.strip a) = "keep" ->
              r_in = Some x -> r_out = Some y ->
              ~ (0 <= x /\ x < y /\ y <= video_duration) ->
              V1.parse_row py_float video_duration row
              = Raise (ValueError (Invalid_time_range x y)))).
Proof.
  split; [intros; now apply parse_ignores_duration |].
  split; [intros; now apply parse_plain |].
  split; [intros; now apply parse_mm_ss_parts with a b |].
  split; [intros; now apply parse_hh_mm_ss_parts with a b c |].
  split; [reflexivity |]. split; [reflexivity |].
  intros d row a r_in r_out Ha Hin Hout. split.
  - now apply V1_other_action_loads.
  - intros x y. now apply V1_remove_keep_out_of_range.
Qed.

Lemma C10_timestamps_not_range_checked_witness :
  parse_timestamp_string Literal.float_literal "-5" (Some 10)
  = parse_timestamp_string Literal.float_literal "-5" None
  /\ parse_timestamp_string Literal.float_literal "-5" (Some 10) = Ok (Some (-5))
  /\ parse_timestamp_string Literal.float_literal "90:00" (Some 10)
     = Ok (Some (90 * 60 + 0))
  /\ parse_timestamp_string Literal.float_literal "1:30:00" (Some 10)
     = Ok (Some (1 * 3600 + 30 * 60 + 0))
  /\ V1.parse_row Literal.float_literal 10
       (row_of [("action", "mute_audio"); ("record_in", "-5");
                ("record_out", "90:00")])
     = Ok {| action := "mute_audio"; record_in := Some (-5);
             record_out := Some 5400; insert := None |}
  /\ V1.parse_row Literal.float_literal 10
       (row_of [("action", "remove"); ("record_in", "-5");
                ("record_out", "3")])
     = Raise (ValueError (Invalid_time_range (-5) 3)).
Proof.
  destruct (C10_timestamps_not_range_checked Literal.float_literal)
    as (Hdur & Hplain & Hmm & Hhh & _ & _ & Hrow).
  split; [apply Hdur; discriminate |].
  split; [apply Hplain; [discriminate | discriminate | reflexivity | reflexivity] |].
  split; [apply (Hmm "90:00" "90" "00")%string; reflexivity |].
  split; [apply (Hhh "1:30:00" "1" "30" "00")%string; reflexivity |].
  split.
  - apply (Hrow 10
             (row_of [("action", "mute_audio"); ("record_in", "-5");
                      ("record_out", "90:00")])
             "mute_audio"%string (Some (-5)) (Some 5400));
      [reflexivity | reflexivity | reflexivity | discriminate | discriminate].
  - apply (Hrow 10
             (row_of [("action", "remove"); ("record_in", "-5");
                      ("record_out", "3")])
             "remove"%string (Some (-5)) (Some 3));
      [reflexivity | reflexivity | reflexivity | now left | reflexivity
      | reflexivity |].
    intros [H _]. vm_compute in H. apply H. reflexivity.
Defined.

(** ** [mute_audio] rows *)

(** C1 does not hold of the code: [load_edl_csv] checks the presence and
    the range of [record_in] and [record_out] for [remove] and [keep]
    only.  With a timeline of 60 seconds, a [mute_audio] row without
    [record_out], one whose [record_in] is after its [record_out], and one
    beyond the timeline all load, strict or not, where the same cells in a
    [remove] row fail; the list comprehension that reads the mute ranges
    then raises [KeyError] on the first of them. *)
Theorem C1_mute_audio_rows_not_checked :
  V1.load_edl_csv Literal.float_literal [mute_row "5" ""] 60 false
  = (Ok [ {| action := "mute_audio"; record_in := Some 5; record_out := None;
             insert := None |} ], [])
  /\ V1.load_edl_csv Literal.float_literal [mute_row "5" ""] 60 true
     = (Ok [ {| action := "mute_audio"; record_in := Some 5;
                record_out := None; insert := None |} ], [])
  /\ V1.load_edl_csv Literal.float_literal [mute_row "8" "3"] 60 false
     = (Ok [ {| action := "mute_audio"; record_in := Some 8;
                record_out := Some 3; insert := None |} ], [])
  /\ V1.load_edl_csv Literal.float_literal [mute_row "50" "600"] 60 true
     = (Ok [ {| action := "mute_audio"; record_in := Some 50;
                record_out := Some 600; insert := None |} ], [])
  /\ V1.load_edl_csv Literal.float_literal [remove_row "5" ""] 60 false
     = (Ok [], [(1%nat, ValueError (Missing_record_in_or_record_out "remove"))])
  /\ V1.load_edl_csv Literal.float_literal [remove_row "8" "3"] 60 false
     = (Ok [], [(1%nat, ValueError (Invalid_time_range 8 3))])
  /\ V1.load_edl_csv Literal.float_literal [remove_row "50" "600"] 60 true
     = (Raise (ValueError (Error_in_row 1 (ValueError (Invalid_time_range 50 600)))),
        [])
  /\ V1.segments_of "mute_audio"
       [ {| action := "mute_audio"; record_in := Some 5; record_out := None;
            insert := None |} ]
     = Raise (KeyError "record_out").
Proof. repeat split; vm_compute; reflexivity. Qed.

(** the loader of [PyClipper_Beta_AudioOptions.py] lets the same rows
    through *)
Example Beta_mute_audio_rows_not_checked :
  Beta.load_edl_csv Literal.float_literal [mute_row "5" ""; mute_row "8" "3"] 60 true
  = (Ok [ {| action := "mute_audio"; record_in := Some 5; record_out := None;
             insert := None |};
          {| action := "mute_audio"; record_in := Some 8; record_out := Some 3;
             insert := None |} ], []).
Proof. vm_compute. reflexivity. Qed.

(** ** [insert] rows *)

Lemma raises_bind {A B : Type} (m : result A) (f : A -> result B) :
  raises m -> raises (m ≫= f).
Proof. destruct m; [intros [] | intros _; exact I]. Qed.

Section Beta_rows.

Variable py_float : string -> option Q.
Hypothesis float_empty : py_float "" = None.
Variable video_duration : Q.
Variable row : gmap string (option string).

Lemma parse_blank_raises (s : string) (d : option Q) :
  PyStr.strip s = ""%string -> raises (parse_timestamp_string py_float s d).
Proof.
  intros H. unfold parse_timestamp_string. rewrite H. simpl.
  now rewrite float_empty.
Qed.

Lemma parse_cell_blank_raises (key default : string) :
  blank row key -> PyStr.strip default = ""%string ->
  raises (Beta.parse_cell py_float (Row.get row key default)).
Proof.
  unfold blank, Beta.parse_cell, Row.get. intros H Hd.
  destruct (row !! key) as [[s |] |]; run;
    [now apply parse_blank_raises | exact I | now apply parse_blank_raises].
Qed.

Lemma record_cell_blank (key : string) :
  blank row key ->
  record_cell py_float row key video_duration = Ok None
  \/ raises (record_cell py_float row key video_duration).
Proof.
  unfold blank, record_cell, Row.present. intros H.
  destruct (row !! key) as [[s |] |]; [| now left | now left].
  destruct (PyStr.truthy s); [right; now apply parse_blank_raises | now left].
Qed.

Lemma insert_block_no_source (r_in : option Q) :
  blank row "insert_source" -> raises (Beta.insert_block py_float row r_in).
Proof.
  unfold blank, Beta.insert_block, Row.get. intros H.
  destruct (row !! "insert_source") as [[s |] |]; run;
    [rewrite H | exact I |]; exact I.
Qed.

Lemma insert_block_no_source_out (r_in : option Q) :
  blank row "source_out" -> raises (Beta.insert_block py_float row r_in).
Proof.
  intros H. unfold Beta.insert_block.
  destruct (Row.str (Row.get row "insert_source" "")) as [src | e]; run;
    [| exact I].
  destruct (negb (PyStr.truthy (PyStr.strip src))); [exact I |].
  destruct (Beta.parse_cell py_float (Row.get row "source_in" "0"))
    as [s_in | e]; run; [| exact I].
  pose proof (parse_cell_blank_raises "source_out" "" H eq_refl) as Hr.
  destruct (Beta.parse_cell py_float (Row.get row "source_out" ""));
    [destruct Hr | exact I].
Qed.

Lemma insert_block_no_record_in :
  raises (Beta.insert_block py_float row None).
Proof.
  unfold Beta.insert_block.
  destruct (Row.str (Row.get row "insert_source" "")) as [src | e]; run;
    [| exact I].
  destruct (negb (PyStr.truthy (PyStr.strip src))); [exact I |].
  destruct (Beta.parse_cell py_float (Row.get row "source_in" "0"))
    as [s_in | e]; run; [| exact I].
  destruct (Beta.parse_cell py_float (Row.get row "source_out" ""))
    as [s_out | e]; run; [| exact I].
  destruct s_out as [s_out |], s_in as [s_in |]; try exact I.
  destruct (Qle_bool s_out s_in); exact I.
Qed.

Lemma insert_block_bad_range (r_in : option Q) (s_in s_out : Q) :
  Beta.parse_cell py_float (Row.get row "source_in" "0") = Ok (Some s_in) ->
  Beta.parse_cell py_float (Row.get row "source_out" "") = Ok (Some s_out) ->
  s_out <= s_in ->
  raises (Beta.insert_block py_float row r_in).
Proof.
  intros Hi Ho Hle. unfold Beta.insert_block.
  destruct (Row.str (Row.get row "insert_source" "")) as [src | e]; run;
    [| exact I].
  destruct (negb (PyStr.truthy (PyStr.strip src))); [exact I |].
  rewrite Hi, Ho. run. apply Qle_bool_iff in Hle. now rewrite Hle.
Qed.

Variable a : string.
Hypothesis Haction : Row.get row "action" "" = Some a.
Hypothesis Hinsert : PyStr.lower (PyStr.strip a) = "insert"%string.

(** an [insert] row fails as soon as its [insert] block does *)
Lemma Beta_insert_row_raises :
  (forall r_in,
      record_cell py_float row "record_in" video_duration = Ok r_in ->
      raises (Beta.insert_block py_float row r_in)) ->
  raises (Beta.parse_row py_float video_duration row).
Proof.
  intros H. unfold Beta.parse_row. rewrite Haction. run. rewrite Hinsert.
  destruct (record_cell py_float row "record_in" video_duration)
    as [r_in |] eqn:Ein; run; [| exact I].
  destruct (record_cell py_float row "record_out" video_duration)
    as [r_out |]; run; [| exact I].
  specialize (H r_in eq_refl).
  destruct (Beta.insert_block py_float row r_in); [destruct H | exact I].
Qed.

Lemma Beta_insert_row_loads (r_in : Q) (r_out : option Q)
    (fields : insert_fields) :
  record_cell py_float row "record_in" video_duration = Ok (Some r_in) ->
  record_cell py_float row "record_out" video_duration = Ok r_out ->
  Beta.insert_block py_float row (Some r_in) = Ok fields ->
  Beta.parse_row py_float video_duration row
  = Ok {| action := "insert"; record_in := Some r_in; record_out := r_out;
          insert := Some fields |}.
Proof.
  intros Hin Hout Hf. unfold Beta.parse_row. rewrite Haction. run.
  rewrite Hinsert, Hin, Hout. run. now rewrite Hf.
Qed.

End Beta_rows.

(** C8, as stated, fails on [PyClipper_v1.py]: its [load_edl_csv] has no
    [insert] block, and an [insert] row with no [insert_source], no
    [source_out] and no [record_in] loads. *)
Lemma C8_insert_row_loads_in_v1 :
  V1.parse_row Literal.float_literal 60 insert_row_v1
  = Ok {| action := "insert"; record_in := None; record_out := None;
          insert := None |}
  /\ ~ raises (V1.parse_row Literal.float_literal 60 insert_row_v1)
  /\ V1.load_edl_csv Literal.float_literal [insert_row_v1] 60 true
     = (Ok [ {| action := "insert"; record_in := None; record_out := None;
                insert := None |} ], []).
Proof.
  split; [vm_compute; reflexivity |].
  split; [vm_compute; intros [] | vm_compute; reflexivity].
Qed.

(** C8, amended: in [PyClipper_Beta_AudioOptions.py], a row whose action
    is [insert] fails when [insert_source] is missing, when [source_out]
    is missing, when [source_in >= source_out] ([source_in] read from
    ["0"] when the row has no such column, both parsed with no duration),
    or when [record_in] is missing; when none of these holds and the
    timestamps and the transition cells of the row parse, the row gives an
    [insert] operation with these fields.  ([float] is taken to raise on
    the empty text, as it does.) *)
Theorem C8_insert_rows_Beta (py_float : string -> option Q)
    (video_duration : Q) (row : gmap string (option string)) (a : string) :
  py_float "" = None ->
  Row.get row "action" "" = Some a ->
  PyStr.lower (PyStr.strip a) = "insert"%string ->
  (blank row "insert_source" ->
   raises (Beta.parse_row py_float video_duration row))
  /\ (blank row "source_out" ->
      raises (Beta.parse_row py_float video_duration row))
  /\ (forall t_in t_out s_in s_out,
        Row.get row "source_in" "0" = Some t_in ->
        Row.get row "source_out" "" = Some t_out ->
        parse_timestamp_string py_float t_in None = Ok (Some s_in) ->
        parse_timestamp_string py_float t_out None = Ok (Some s_out) ->
        s_out <= s_in ->
        raises (Beta.parse_row py_float video_duration row))
  /\ (blank row "record_in" ->
      raises (Beta.parse_row py_float video_duration row))
  /\ (row !! "source_in" = None -> Row.get row "source_in" "0" = Some "0"%string)
  /\ (forall src t_in t_out s_in s_out r_in r_out tr_in d_in tr_out d_out,
        Row.get row "insert_source" "" = Some src ->
        PyStr.strip src <> ""%string ->
        Row.get row "source_in" "0" = Some t_in ->
        Row.get row "source_out" "" = Some t_out ->
        parse_timestamp_string py_float t_in None = Ok (Some s_in) ->
        parse_timestamp_string py_float t_out None = Ok (Some s_out) ->
        s_in < s_out ->
        record_cell py_float row "record_in" video_duration = Ok (Some r_in) ->
        record_cell py_float row "record_out" video_duration = Ok r_out ->
        Beta.transition row "transition_in" = Ok tr_in ->
        Beta.duration py_float row "transition_in_duration" = Ok d_in ->
        Beta.transition row "transition_out" = Ok tr_out ->
        Beta.duration py_float row "transition_out_duration" = Ok d_out ->
        Beta.parse_row py_float video_duration row
        = Ok {| action := "insert"; record_in := Some r_in;
                record_out := r_out;
                insert := Some {| insert_source := PyStr.strip src;
                                  source_in := s_in; source_out := s_out;
                                  transition_in := tr_in;
                                  transition_in_duration := d_in;
                                  transition_out := tr_out;
                                  transition_out_duration := d_out |} |}).
Proof.
  intros Hf Ha Hi.
  split.
  { intros H. apply Beta_insert_row_raises with a; try assumption.
    intros r_in _. now apply insert_block_no_source. }
  split.
  { intros H. apply Beta_insert_row_raises with a; try assumption.
    intros r_in _. now apply insert_block_no_source_out. }
  split.
  { intros t_in t_out s_in s_out Hti Hto Hpi Hpo Hle.
    apply Beta_insert_row_raises with a; try assumption.
    intros r_in _. apply insert_block_bad_range with s_in s_out.
    - rewrite Hti. exact Hpi.
    - rewrite Hto. exact Hpo.
    - exact Hle. }
  split.
  { intros H. unfold Beta.parse_row. rewrite Ha. run. rewrite Hi.
    destruct (record_cell_blank py_float Hf video_duration row "record_in" H)
      as [-> | Hr]; [| now apply raises_bind].
    run.
    destruct (record_cell py_float row "record_out" video_duration);
      run; [| exact I].
    pose proof (insert_block_no_record_in py_float row) as Hr.
    destruct (Beta.insert_block py_float row None); [destruct Hr | exact I]. }
  split.
  { intros H. unfold Row.get. now rewrite H. }
  intros src t_in t_out s_in s_out r_in r_out tr_in d_in tr_out d_out
    Hsrc Hne Hti Hto Hpi Hpo Hlt Hri Hro Htr1 Hd1 Htr2 Hd2.
  apply Beta_insert_row_loads with a; try assumption.
  unfold Beta.insert_block. rewrite Hsrc. run.
  destruct (PyStr.strip src) eqn:Es; [contradiction |]. simpl.
  rewrite Hti, Hto. unfold Beta.parse_cell. run. rewrite Hpi, Hpo. run.
  assert (E : Qle_bool s_out s_in = false) by (apply Qle_bool_gt; exact Hlt).
  rewrite E, Htr1, Hd1, Htr2, Hd2. reflexivity.
Qed.

Lemma C8_insert_rows_Beta_witness :
  raises (Beta.parse_row Literal.float_literal 60 insert_row_no_source)
  /\ raises (Beta.parse_row Literal.float_literal 60 insert_row_bad_range)
  /\ Beta.parse_row Literal.float_literal 60 insert_row_good
     = Ok {| action := "insert"; record_in := Some 12; record_out := None;
             insert := Some {| insert_source := "b.mp4";
                               source_in := 0; source_out := 5;
                               transition_in := Some "fade"%string;
                               transition_in_duration := 15 # 10;
                               transition_out := None;
                               transition_out_duration := 0 |} |}.
Proof.
  split; [| split].
  - destruct (C8_insert_rows_Beta Literal.float_literal 60 insert_row_no_source
                "Insert" eq_refl eq_refl eq_refl) as (H & _).
    apply H. vm_compute. reflexivity.
  - destruct (C8_insert_rows_Beta Literal.float_literal 60 insert_row_bad_range
                "insert" eq_refl eq_refl eq_refl) as (_ & _ & H & _).
    apply (H "0:07" "5" 7 5)%string;
      [reflexivity | reflexivity | reflexivity | reflexivity |].
    vm_compute. discriminate.
  - destruct (C8_insert_rows_Beta Literal.float_literal 60 insert_row_good
                "insert" eq_refl eq_refl eq_refl) as (_ & _ & _ & _ & _ & H).
    apply (H " b.mp4 " "0" "5" 0 5 12 None (Some "fade") (15 # 10) None 0)%string;
      [reflexivity | discriminate | reflexivity | reflexivity | reflexivity
      | reflexivity | reflexivity | reflexivity | reflexivity | reflexivity
      | reflexivity | reflexivity | reflexivity].
Defined.

(** without the column the default ["0"] is read; an empty cell in the
    column is not replaced by it, and the row fails *)
Example Beta_empty_source_in_cell :
  raises (Beta.parse_row Literal.float_literal 60
            (row_of [("action", "insert"); ("record_in", "12");
                     ("insert_source", "b.mp4"); ("source_in", "");
                     ("source_out", "5")])).
Proof. vm_compute. exact I. Qed.

(** * Further properties of the two scripts *)

(** ** The remove set and the keep ranges *)

Lemma inside_covers (x m : segment) (t : Q) :
  inside x m -> covers x t -> covers m t.
Proof. unfold inside, covers. lra. Qed.

(** a point of a merged range is a point of a range given to the loop *)
Lemma merge_from_covered (rest : list segment) (cur m : segment) (t : Q) :
  ascending (cur :: rest) ->
  In m (merge_from cur rest) -> covers m t ->
  covers cur t \/ exists r, In r rest /\ covers r t.
Proof.
  revert cur. induction rest as [| seg rest IH]; intros cur Ha Hm Ht; simpl in Hm.
  - destruct Hm as [<- | []]. now left.
  - pose proof Ha as Ha'. unfold ascending in Ha'.
    inversion Ha' as [| ? ? Hs Hf]; subst.
    inversion Hf as [| ? ? Hseg Hrest]; subst.
    destruct (Qltb (snd cur) (fst seg)) eqn:E.
    + destruct Hm as [<- | Hm]; [now left |].
      destruct (IH seg Hs Hm Ht) as [H | (r & Hr & Hc)].
      * right. exists seg. split; [now left | exact H].
      * right. exists r. split; [now right | exact Hc].
    + apply Qltb_ge in E.
      assert (Ha2 : ascending ((fst cur, Py.max (snd cur) (snd seg)) :: rest)).
      { apply ascending_head with cur; [reflexivity |]. unfold ascending.
        inversion Hs; subst. now constructor. }
      destruct (IH _ Ha2 Hm Ht) as [H | (r & Hr & Hc)].
      * unfold covers in *. simpl in *.
        destruct (max_cases (snd cur) (snd seg)) as [[Hlt Hmax] | [Hge Hmax]];
          rewrite Hmax in H.
        -- destruct (Qlt_le_dec t (snd cur)) as [Htc | Htc]; [left; lra |].
           right. exists seg. split; [now left | lra].
        -- left. lra.
      * right. exists r. split; [now right | exact Hc].
Qed.

Lemma normalize_covers (l : list segment) (t : Q) :
  (exists r, In r l /\ covers r t)
  <-> (exists m, In m (normalize l) /\ covers m t).
Proof.
  split.
  - intros (r & Hr & Hc). destruct (normalize_inside l r Hr) as (m & Hm & Hi).
    exists m. split; [exact Hm | now apply inside_covers with r].
  - intros (m & Hm & Hc). unfold normalize in Hm. rewrite merged_recursive in Hm.
    pose proof (sort_ascending l) as Ha.
    assert (Hin : forall r, In r (sort l) -> In r l).
    { intros r Hr. eapply Permutation_in; [apply sort_perm | exact Hr]. }
    destruct (sort l) as [| seg rest]; [destruct Hm |]. simpl in Hm.
    destruct (merge_from_covered rest seg m t Ha Hm Hc) as [H | (r & Hr & H)].
    + exists seg. split; [apply Hin; now left | exact H].
    + exists r. split; [apply Hin; now right | exact H].
Qed.

(** X1: the normalisation neither loses nor adds a point: a time lies in
    a range of the input exactly when it lies in a range of the result
    (ranges taken half-open), whatever the input list. *)
Theorem normalize_same_points (l : list segment) (t : Q) :
  (exists r, In r l /\ covers r t)
  <-> (exists m, In m (normalize l) /\ covers m t).
Proof. exact (normalize_covers l t). Qed.

Lemma keep_from_proper (rest : list segment) (last_end D : Q) :
  Forall proper (keep_from last_end rest D).
Proof.
  revert last_end. induction rest as [| [s e] rest IH]; intros last_end; simpl.
  - cmp; repeat constructor. exact E.
  - cmp; [constructor; [exact E | apply IH] | apply IH].
Qed.

(** X2: every keep range has a positive length, whatever the remove list
    and the duration; the test [if end > start] with which the script
    filters the keep ranges before cutting drops none of them. *)
Theorem keep_segments_proper (remove : list segment) (D : Q) :
  Forall proper (keep_segments remove D)
  /\ List.filter (fun k => Qltb (fst k) (snd k)) (keep_segments remove D)
     = keep_segments remove D.
Proof.
  assert (H : Forall proper (keep_segments remove D)).
  { rewrite keep_segments_recursive. apply keep_from_proper. }
  split; [exact H |].
  induction H as [| k ks Hk _ IH]; [reflexivity |]. simpl.
  apply Qltb_lt in Hk. now rewrite Hk, IH.
Qed.

Lemma tiles_starts (l : list segment) (lo hi : Q) :
  tiles lo hi l -> Forall (fun seg => lo <= fst seg) l.
Proof.
  revert lo. induction l as [| seg l IH]; intros lo; simpl; [constructor |].
  intros (H1 & H2 & H3). constructor; [lra |].
  eapply Forall_impl; [apply (IH _ H3) |]. intros z Hz. simpl in Hz. lra.
Qed.

Lemma tiles_NoDup (l : list segment) (lo hi : Q) : tiles lo hi l -> NoDup l.
Proof.
  revert lo. induction l as [| seg l IH]; intros lo; simpl; [constructor |].
  intros (H1 & H2 & H3). constructor; [| now apply IH with (snd seg)].
  intros Hin. pose proof (tiles_starts _ _ _ H3) as Hs.
  rewrite Forall_forall in Hs. specialize (Hs seg Hin). simpl in Hs. lra.
Qed.

Lemma apart_or (l : list segment) (a b : segment) :
  StronglySorted (fun a b => snd a <= fst b) l ->
  In a l -> In b l -> a = b \/ snd a <= fst b \/ snd b <= fst a.
Proof.
  induction 1 as [| x l Hs IH Hx]; intros Ha Hb; [destruct Ha |].
  rewrite Forall_forall in Hx.
  destruct Ha as [-> | Ha], Hb as [-> | Hb].
  - now left.
  - right; left. apply Hx. now apply list_elem_of_In.
  - right; right. apply Hx. now apply list_elem_of_In.
  - now apply IH.
Qed.

Lemma validated_chain (l : list segment) (D : Q) :
  0 <= D -> Forall (validated D) l -> chain 0 (normalize l) D.
Proof.
  intros HD Hl. pose proof (normalize_validated l D Hl) as Hn.
  apply remove_set_chain; [exact HD | apply normalize_disjoint | |];
    (eapply Forall_impl; [exact Hn |]); unfold validated, proper;
    intros z Hz; simpl; lra.
Qed.

(** X3: what is kept is what was not removed.  For ranges to remove that
    passed the validation [0 <= start < end <= D], a time lies in a keep
    range computed from their normalisation exactly when it lies in
    [[0, D)] and in none of the ranges to remove. *)
Theorem keep_segments_complement (l : list segment) (D t : Q) :
  0 <= D -> Forall (validated D) l ->
  (exists k, In k (keep_segments (normalize l) D) /\ covers k t)
  <-> (0 <= t /\ t < D /\ ~ exists r, In r l /\ covers r t).
Proof.
  intros HD Hl. pose proof (validated_chain l D HD Hl) as Hch.
  rewrite keep_segments_recursive.
  pose proof (keep_from_tiles _ 0 D Hch) as Ht.
  pose proof (interleave_perm (keep_from 0 (normalize l) D) (normalize l)) as Hp.
  split.
  - intros (k & Hk & Hc).
    assert (Hk' : In k (interleave (keep_from 0 (normalize l) D) (normalize l))).
    { eapply Permutation_in; [symmetry; exact Hp |]. apply in_or_app. now left. }
    destruct (proj2 (tiles_covers _ 0 D t Ht)) as [H0 HD'];
      [exists k; now split |].
    split; [exact H0 |]. split; [exact HD' |].
    intros Hr. apply normalize_covers in Hr. destruct Hr as (m & Hm & Hcm).
    assert (Hm' : In m (interleave (keep_from 0 (normalize l) D) (normalize l))).
    { eapply Permutation_in; [symmetry; exact Hp |]. apply in_or_app. now right. }
    destruct (apart_or _ k m (tiles_apart _ _ _ Ht) Hk' Hm') as [-> | [H | H]].
    + pose proof (tiles_NoDup _ _ _ Ht) as Hnd. rewrite Hp in Hnd.
      apply NoDup_app in Hnd. destruct Hnd as (_ & Hdis & _).
      apply (Hdis m); now apply list_elem_of_In.
    + unfold covers in *. lra.
    + unfold covers in *. lra.
  - intros (H0 & HD' & Hno).
    destruct (proj1 (tiles_covers _ 0 D t Ht) (conj H0 HD')) as (seg & Hs & Hc).
    apply (Permutation_in _ Hp) in Hs. apply in_app_or in Hs.
    destruct Hs as [Hs | Hs]; [exists seg; now split |].
    exfalso. apply Hno. apply normalize_covers. exists seg. now split.
Qed.

Lemma keep_segments_complement_witness :
  (exists k, In k (keep_segments (normalize [(4, 8); (2, 5); (10, 12)]) 15)
             /\ covers k 9)
  <-> (0 <= 9 /\ 9 < 15
       /\ ~ exists r, In r [(4, 8); (2, 5); (10, 12)] /\ covers r 9).
Proof.
  apply (keep_segments_complement [(4, 8); (2, 5); (10, 12)] 15 9).
  - numerals.
  - repeat constructor; numerals.
Defined.

Lemma keep_segments_of_normalized_witness :
  tiles 0 15 (interleave (keep_segments (normalize [(4, 8); (2, 5); (10, 12)]) 15)
                (normalize [(4, 8); (2, 5); (10, 12)]))
  /\ total (keep_segments (normalize [(4, 8); (2, 5); (10, 12)]) 15)
     + total (normalize [(4, 8); (2, 5); (10, 12)]) == 15.
Proof.
  apply (keep_segments_of_normalized [(4, 8); (2, 5); (10, 12)] 15).
  - numerals.
  - repeat constructor; numerals.
Defined.

(** X5: the script stops with "No video left after removals!" exactly
    when everything was removed: for validated ranges and [D > 0], there
    is no keep range exactly when the normalised remove set is one range
    from 0 to [D]. *)
Theorem keep_segments_empty (l : list segment) (D : Q) :
  0 < D -> Forall (validated D) l ->
  keep_segments (normalize l) D = []
  <-> (exists s e, normalize l = [(s, e)] /\ s == 0 /\ e == D).
Proof.
  intros HD Hl.
  assert (HD' : 0 <= D) by lra.
  pose proof (validated_chain l D HD' Hl) as Hch.
  pose proof (normalize_disjoint l) as Hd.
  rewrite keep_segments_recursive. split.
  - intros Hk. pose proof (keep_from_tiles _ 0 D Hch) as Ht.
    rewrite Hk, interleave_nil_l in Ht.
    destruct (normalize l) as [| [s e] [| [s' e'] rest]]; simpl in Ht.
    + lra.
    + exists s, e. split; [reflexivity | lra].
    + exfalso. unfold disjoint_sorted in Hd.
      inversion Hd as [| ? ? _ Hh]; subst. inversion Hh as [| ? ? Hlt]; subst.
      simpl in Hlt. lra.
  - intros (s & e & -> & Hs & He). simpl.
    assert (E1 : Qltb 0 s = false) by (apply Qltb_ge; lra).
    assert (E2 : Qltb e D = false) by (apply Qltb_ge; lra).
    now rewrite E1, E2.
Qed.

Lemma keep_segments_empty_witness :
  keep_segments (normalize [(0, 7); (5, 15)]) 15 = []
  <-> (exists s e, normalize [(0, 7); (5, 15)] = [(s, e)] /\ s == 0 /\ e == 15).
Proof.
  apply (keep_segments_empty [(0, 7); (5, 15)] 15).
  - numerals.
  - repeat constructor; numerals.
Defined.

(** ** The loader and the remove ranges *)

Lemma oks_app {A : Type} (rs1 rs2 : list (result A)) :
  oks (rs1 ++ rs2) = oks rs1 ++ oks rs2.
Proof.
  induction rs1 as [| [x | e] rs1 IH]; simpl; [reflexivity | | exact IH].
  now rewrite IH.
Qed.

Lemma oks_failures_length {A : Type} (rs : list (result A)) (row_idx : nat) :
  (length (oks rs) + length (failures row_idx rs) = length rs)%nat.
Proof.
  revert row_idx. induction rs as [| [x | e] rs IH]; intros row_idx; simpl.
  - reflexivity.
  - now rewrite IH.
  - rewrite <- (IH (S row_idx)). lia.
Qed.

(** X6: a lenient load never raises, and accounts for every row: the
    number of operations returned plus the number of lines printed is the
    number of rows. *)
Theorem lenient_load_accounts_for_rows (py_float : string -> option Q)
    (rows : list (gmap string (option string))) (video_duration : Q) :
  exists operations printed,
    V1.load_edl_csv py_float rows video_duration false = (Ok operations, printed)
    /\ (length operations + length printed = length rows)%nat.
Proof.
  unfold V1.load_edl_csv. rewrite load_rows_lenient. simpl.
  eexists _, _. split; [reflexivity |].
  rewrite oks_failures_length. apply length_map.
Qed.

(** how a strict load relates to a lenient one, for any body of the
    [try] *)
Lemma load_rows_strict_lenient
    (body : gmap string (option string) -> result operation)
    (rows : list (gmap string (option string))) (row_idx : nat)
    (operations : list operation) (printed : list (nat * exn)) :
  match load_rows body true row_idx rows operations printed with
  | (Ok ops, _) =>
      load_rows body false row_idx rows operations printed = (Ok ops, printed)
  | (Raise e, _) =>
      exists idx cause more,
        e = ValueError (Error_in_row idx cause)
        /\ snd (load_rows body false row_idx rows operations printed)
           = printed ++ (idx, cause) :: more
  end.
Proof.
  revert row_idx operations printed.
  induction rows as [| row rows IH]; intros row_idx operations printed; simpl.
  - reflexivity.
  - destruct (body row) as [op | e] eqn:E.
    + apply IH.
    + exists row_idx, e. rewrite load_rows_lenient. simpl.
      eexists. split; [reflexivity |]. now rewrite <- app_assoc.
Qed.

(** X7: a strict load that returns gives the operations of the lenient
    load, which then prints nothing; a strict load that raises names the
    row of the first line the lenient load prints, with the same cause. *)
Theorem strict_load_and_lenient_load (py_float : string -> option Q)
    (rows : list (gmap string (option string))) (video_duration : Q) :
  match V1.load_edl_csv py_float rows video_duration true with
  | (Ok ops, _) =>
      V1.load_edl_csv py_float rows video_duration false = (Ok ops, [])
  | (Raise e, _) =>
      exists idx cause more,
        e = ValueError (Error_in_row idx cause)
        /\ snd (V1.load_edl_csv py_float rows video_duration false)
           = (idx, cause) :: more
  end.
Proof.
  unfold V1.load_edl_csv.
  apply (load_rows_strict_lenient (V1.parse_row py_float video_duration) rows 1 [] []).
Qed.

Lemma V1_parse_row_checked (py_float : string -> option Q) (d : Q)
    (row : gmap string (option string)) (op : operation) :
  V1.parse_row py_float d row = Ok op -> checked_remove d op.
Proof.
  unfold V1.parse_row, checked_remove.
  destruct (Row.str (Row.get row "action" "")) as [a |]; run; [| discriminate].
  destruct (record_cell py_float row "record_in" d) as [r_in |]; run;
    [| discriminate].
  destruct (record_cell py_float row "record_out" d) as [r_out |]; run;
    [| discriminate].
  destruct (String.eqb (PyStr.lower (PyStr.strip a)) "remove") eqn:Ea; simpl.
  - destruct r_in as [x |], r_out as [y |]; try discriminate.
    destruct (in_timeline x y d) eqn:Et; [| discriminate].
    intros [= <-] _. simpl. exists x, y. apply in_timeline_iff in Et.
    repeat split; tauto.
  - destruct (String.eqb (PyStr.lower (PyStr.strip a)) "keep");
      [destruct r_in as [x |], r_out as [y |]; try discriminate;
       destruct (in_timeline x y d); try discriminate |];
      intros [= <-]; simpl; intros H; apply String.eqb_eq in H; congruence.
Qed.

Lemma Beta_parse_row_checked (py_float : string -> option Q) (d : Q)
    (row : gmap string (option string)) (op : operation) :
  Beta.parse_row py_float d row = Ok op -> checked_remove d op.
Proof.
  unfold Beta.parse_row, checked_remove.
  destruct (Row.str (Row.get row "action" "")) as [a |]; run; [| discriminate].
  destruct (record_cell py_float row "record_in" d) as [r_in |]; run;
    [| discriminate].
  destruct (record_cell py_float row "record_out" d) as [r_out |]; run;
    [| discriminate].
  destruct (String.eqb (PyStr.lower (PyStr.strip a)) "remove") eqn:Ea; simpl.
  - apply String.eqb_eq in Ea. rewrite Ea. simpl.
    destruct r_in as [x |], r_out as [y |]; try discriminate.
    destruct (in_timeline x y d) eqn:Et; [| discriminate].
    intros [= <-] _. simpl. exists x, y. apply in_timeline_iff in Et.
    repeat split; tauto.
  - intros Hop Hact. exfalso.
    assert (Hop' : action op = PyStr.lower (PyStr.strip a)).
    { destruct (String.eqb (PyStr.lower (PyStr.strip a)) "keep");
        [destruct r_in as [x |], r_out as [y |]; try discriminate;
         destruct (in_timeline x y d); try discriminate |];
        simpl in Hop;
        (destruct (String.eqb (PyStr.lower (PyStr.strip a)) "insert");
         [destruct (Beta.insert_block py_float row _); simpl in Hop;
          try discriminate |]);
        injection Hop as <-; reflexivity. }
    rewrite Hact in Hop'. rewrite <- Hop' in Ea. discriminate.
Qed.

Lemma segments_of_checked (d : Q) (ops : list operation) :
  Forall (checked_remove d) ops ->
  exists segs, V1.segments_of "remove" ops = Ok segs
               /\ Forall (validated d) segs.
Proof.
  induction 1 as [| op ops Hop _ (segs & IH & Hv)]; simpl.
  - exists []. split; [reflexivity | constructor].
  - destruct (String.eqb (action op) "remove") eqn:E.
    + apply String.eqb_eq in E. destruct (Hop E) as (x & y & -> & -> & Hxy).
      rewrite IH. run. exists ((x, y) :: segs). split; [reflexivity |].
      now constructor.
    + exists segs. now split.
Qed.

Lemma oks_checked (body : gmap string (option string) -> result operation)
    (P : operation -> Prop) (rows : list (gmap string (option string))) :
  (forall row op, body row = Ok op -> P op) ->
  Forall P (oks (map body rows)).
Proof.
  intros H. induction rows as [| row rows IH]; simpl; [constructor |].
  destruct (body row) as [op | e] eqn:E; [| exact IH].
  constructor; [now apply H with row | exact IH].
Qed.

Lemma load_rows_returns (body : gmap string (option string) -> result operation)
    (strict : bool) (rows : list (gmap string (option string)))
    (ops : list operation) (printed : list (nat * exn)) :
  load_rows body strict 1 rows [] [] = (Ok ops, printed) ->
  ops = oks (map body rows).
Proof.
  destruct strict.
  - pose proof (load_rows_strict_lenient body rows 1 [] []) as H.
    intros E. rewrite E in H. rewrite load_rows_lenient in H.
    now injection H as ->.
  - rewrite load_rows_lenient. now intros [= <- _].
Qed.

(** X8: the ranges to remove read from a loaded EDL are all there and all
    valid: whenever [load_edl_csv] returns, strict or not, the list
    comprehension over its [remove] operations raises no [KeyError], and
    each range it gives satisfies [0 <= start < end <= video_duration].
    This holds of the loader of either script. *)
Theorem loaded_remove_segments_valid (py_float : string -> option Q)
    (rows : list (gmap string (option string))) (video_duration : Q)
    (strict : bool) (ops : list operation) (printed : list (nat * exn)) :
  V1.load_edl_csv py_float rows video_duration strict = (Ok ops, printed)
  \/ Beta.load_edl_csv py_float rows video_duration strict = (Ok ops, printed) ->
  exists segs, V1.segments_of "remove" ops = Ok segs
               /\ Forall (validated video_duration) segs.
Proof.
  intros [H | H]; apply load_rows_returns in H; subst ops;
    apply segments_of_checked, oks_checked; intros row op.
  - apply V1_parse_row_checked.
  - apply Beta_parse_row_checked.
Qed.

Lemma loaded_remove_segments_valid_witness :
  exists segs,
    V1.segments_of "remove" example_operations = Ok segs
    /\ Forall (validated 60) segs.
Proof.
  apply (loaded_remove_segments_valid Literal.float_literal example_rows 60
           false example_operations
           [(2%nat, ValueError (Missing_record_in_or_record_out "remove"))]).
  left. vm_compute. reflexivity.
Defined.

(** ** Timestamps typed at a prompt *)

Lemma split_length (sep : ascii) (s : string) :
  length (PyStr.split sep s) = S (count_sep sep s).
Proof.
  induction s as [| c s IH]; simpl; [reflexivity |].
  destruct (Ascii.eqb c sep); simpl; [now rewrite IH |].
  destruct (PyStr.split sep s) as [| p ps]; simpl in *; [discriminate | exact IH].
Qed.

Lemma count_sep_contains (sep : ascii) (s : string) :
  (0 < count_sep sep s)%nat -> PyStr.contains sep s = true.
Proof.
  induction s as [| c s IH]; simpl; [lia |].
  destruct (Ascii.eqb c sep); [reflexivity | exact IH].
Qed.

Lemma mapM_result {A B : Type} (f : A -> result B) (l : list A) (l' : list B) :
  mapM f l = Ok l' -> Forall2 (fun x y => f x = Ok y) l l'.
Proof.
  revert l'. induction l as [| x l IH]; intros l'; cbn [mapM]; run.
  - intros [= <-]. constructor.
  - destruct (f x) as [y |] eqn:E; [| discriminate].
    destruct (mapM f l) as [ys |]; [| discriminate].
    intros [= <-]. constructor; [exact E | now apply IH].
Qed.

Lemma mapM_float_length (py_float : string -> option Q) (texts : list string)
    (values : list Q) :
  mapM (Py.float py_float) texts = Ok values -> length values = length texts.
Proof. intros H. apply mapM_result in H. symmetry. now apply Forall2_length in H. Qed.

(** X9: a timestamp with three colons or more is rejected by
    [parse_timestamp_string], whatever stands between the colons and
    whatever the duration. *)
Theorem parse_rejects_four_parts (py_float : string -> option Q) (s : string)
    (d : option Q) :
  (3 <= count_sep ":" (PyStr.lower (PyStr.strip s)))%nat ->
  raises (parse_timestamp_string py_float s d).
Proof.
  intros H. unfold parse_timestamp_string.
  assert (Hc : PyStr.contains ":" (PyStr.lower (PyStr.strip s)) = true)
    by (apply count_sep_contains; lia).
  destruct (keyword_no_sep _ Hc) as [H1 H2].
  rewrite (eqb_false_ne _ _ H1), (eqb_false_ne _ _ H2), Hc.
  destruct (mapM (Py.float py_float) (PyStr.split ":" (PyStr.lower (PyStr.strip s))))
    as [parts |] eqn:E; run; [| exact I].
  apply mapM_float_length in E. rewrite split_length in E.
  destruct parts as [| p0 [| p1 [| p2 [| p3 parts]]]]; simpl in E; try lia.
  exact I.
Qed.

Lemma parse_rejects_four_parts_witness :
  raises (parse_timestamp_string Literal.float_literal "0:01:02:03" (Some 60)).
Proof.
  apply (parse_rejects_four_parts Literal.float_literal "0:01:02:03" (Some 60)).
  vm_compute. lia.
Defined.

Lemma float_some (py_float : string -> option Q) (t : string) (v : Q) :
  Py.float py_float t = Ok v -> py_float t = Some v.
Proof. unfold Py.float. destruct (py_float t); [now intros [= ->] | discriminate]. Qed.

Lemma mapM_float_two (py_float : string -> option Q) (a b : string) (m sec : Q) :
  mapM (Py.float py_float) [a; b] = Ok [m; sec] ->
  py_float a = Some m /\ py_float b = Some sec.
Proof.
  intros H. apply mapM_result in H.
  inversion H as [| ? ? ? ? Ha H']; subst. inversion H' as [| ? ? ? ? Hb _]; subst.
  split; now apply float_some.
Qed.

Lemma mapM_float_three (py_float : string -> option Q) (a b c : string)
    (h m sec : Q) :
  mapM (Py.float py_float) [a; b; c] = Ok [h; m; sec] ->
  py_float a = Some h /\ py_float b = Some m /\ py_float c = Some sec.
Proof.
  intros H. apply mapM_result in H.
  inversion H as [| ? ? ? ? Ha H']; subst. inversion H' as [| ? ? ? ? Hb H'']; subst.
  inversion H'' as [| ? ? ? ? Hc _]; subst.
  repeat split; now apply float_some.
Qed.

(** X10: a timestamp is read the same way at a prompt and in an EDL: a
    text that is not blank and that [parse_timestamp_string] turns into a
    number is turned by [get_timestamp] into the same number, at once and
    without a printed line.  ([float] is taken not to read the two texts
    "from start" and "until end", which only the prompt knows.) *)
Theorem get_timestamp_agrees_with_parse (py_float : string -> option Q)
    (video_duration default v : Q) (typed : string) (rest : list string) :
  py_float "from start" = None -> py_float "until end" = None ->
  PyStr.strip typed <> ""%string ->
  parse_timestamp_string py_float typed (Some video_duration) = Ok (Some v) ->
  get_timestamp py_float video_duration default (typed :: rest)
  = (Done v, rest, []).
Proof.
  intros Hfs Hue Hne. unfold parse_timestamp_string. cbn [get_timestamp].
  set (u := PyStr.lower (PyStr.strip typed)).
  assert (Hu : PyStr.truthy u = true).
  { subst u. destruct (PyStr.strip typed); [contradiction | reflexivity]. }
  rewrite Hu. cbn [negb].
  destruct (String.eqb u "start") eqn:E1; [now intros [= <-] |].
  destruct (String.eqb u "end") eqn:E2.
  { intros [= <-]. apply String.eqb_eq in E2. rewrite E2. reflexivity. }
  destruct (String.eqb u "from start") eqn:E3.
  { apply String.eqb_eq in E3. rewrite E3. simpl. rewrite Hfs. discriminate. }
  destruct (String.eqb u "until end") eqn:E4.
  { apply String.eqb_eq in E4. rewrite E4. simpl. rewrite Hue. discriminate. }
  cbn [orb]. destruct (PyStr.contains ":" u).
  - destruct (mapM (Py.float py_float) (PyStr.split ":" u)) as [parts |] eqn:E;
      run; [| discriminate].
    pose proof (mapM_float_length _ _ _ E) as Hlen.
    destruct parts as [| p0 [| p1 [| p2 [| p3 parts]]]]; try discriminate.
    + destruct (PyStr.split ":" u) as [| a [| b [| c l]]]; try discriminate.
      apply mapM_float_two in E. destruct E as [-> ->]. now intros [= <-].
    + destruct (PyStr.split ":" u) as [| a [| b [| c [| c' l]]]]; try discriminate.
      apply mapM_float_three in E. destruct E as (-> & -> & ->).
      now intros [= <-].
  - destruct (py_float u); [now intros [= <-] | discriminate].
Qed.

Lemma get_timestamp_agrees_with_parse_witness :
  get_timestamp Literal.float_literal 60 0 [" 1:30 "; "y"]%string
  = (Done 90, ["y"]%string, []).
Proof.
  apply (get_timestamp_agrees_with_parse Literal.float_literal 60 0 90 " 1:30 ");
    [reflexivity | reflexivity | discriminate | reflexivity].
Defined.

(** ** Prompts *)

(** X11: [get_valid_input] returns at the first line that it does not
    turn down and reads nothing after it.  The answer is the default when
    that line is blank and there is a default, the stripped line
    otherwise, and then never one of the invalid responses in any mix of
    upper and lower case; a line is printed for each line turned down. *)
Theorem get_valid_input_first_valid (invalid_responses : option (gset string))
    (default : option string) (stdin : list string) (answer : string)
    (rest : list string) (printed : list line) :
  get_valid_input invalid_responses default stdin = (Done answer, rest, printed) ->
  exists skipped typed,
    stdin = skipped ++ typed :: rest
    /\ Forall (turned_down invalid_responses default) skipped
    /\ printed = map (fun x => Invalid_input_line (PyStr.strip x)) skipped
    /\ ((PyStr.strip typed = ""%string /\ default = Some answer)
        \/ (answer = PyStr.strip typed
            /\ (PyStr.lower answer ∉ invalid_set invalid_responses)
            /\ (answer <> ""%string \/ default = None))).
Proof.
  revert answer rest printed.
  induction stdin as [| x stdin IH]; intros answer rest printed; [discriminate |].
  cbn [get_valid_input]. fold (invalid_set invalid_responses).
  assert (Hrec :
    (let '(r, rest', out) := get_valid_input invalid_responses default stdin in
     (r, rest', Invalid_input_line (PyStr.strip x) :: out))
    = (Done answer, rest, printed) ->
    PyStr.lower (PyStr.strip x) ∈ invalid_set invalid_responses ->
    PyStr.strip x <> ""%string \/ default = None ->
    exists skipped typed,
      x :: stdin = skipped ++ typed :: rest
      /\ Forall (turned_down invalid_responses default) skipped
      /\ printed = map (fun x => Invalid_input_line (PyStr.strip x)) skipped
      /\ ((PyStr.strip typed = ""%string /\ default = Some answer)
          \/ (answer = PyStr.strip typed
              /\ (PyStr.lower answer ∉ invalid_set invalid_responses)
              /\ (answer <> ""%string \/ default = None)))).
  { destruct (get_valid_input invalid_responses default stdin) as [[r rest'] out].
    intros [= -> -> <-] Hin Hx.
    destruct (IH answer rest out eq_refl) as (skipped & typed & -> & Hs & -> & Ha).
    exists (x :: skipped), typed. split; [reflexivity |].
    split; [constructor; [now split | exact Hs] |]. now split. }
  assert (Hnow : forall Hne : PyStr.strip x <> ""%string \/ default = None,
    PyStr.lower (PyStr.strip x) ∉ invalid_set invalid_responses ->
    (Done (PyStr.strip x), stdin, @nil line) = (Done answer, rest, printed) ->
    exists skipped typed,
      x :: stdin = skipped ++ typed :: rest
      /\ Forall (turned_down invalid_responses default) skipped
      /\ printed = map (fun x => Invalid_input_line (PyStr.strip x)) skipped
      /\ ((PyStr.strip typed = ""%string /\ default = Some answer)
          \/ (answer = PyStr.strip typed
              /\ (PyStr.lower answer ∉ invalid_set invalid_responses)
              /\ (answer <> ""%string \/ default = None)))).
  { intros Hne Hnin [= <- <- <-]. exists [], x. split; [reflexivity |].
    split; [constructor |]. split; [reflexivity |]. right. now repeat split. }
  destruct default as [d |].
  - destruct (PyStr.truthy (PyStr.strip x)) eqn:Et; cbn [negb].
    + assert (Hne : PyStr.strip x <> ""%string).
      { intros H. rewrite H in Et. discriminate. }
      case_bool_decide as Hin.
      * intros H. apply Hrec; [exact H | exact Hin | now left].
      * apply Hnow; [now left | exact Hin].
    + intros [= <- <- <-]. exists [], x. split; [reflexivity |].
      split; [constructor |]. split; [reflexivity |]. left.
      split; [| reflexivity]. destruct (PyStr.strip x); [reflexivity | discriminate].
  - case_bool_decide as Hin.
    + intros H. apply Hrec; [exact H | exact Hin | now right].
    + apply Hnow; [now right | exact Hin].
Qed.

Lemma get_valid_input_first_valid_witness :
  exists skipped typed,
    ["Y"; " n"; " 25% "; "x"]%string = skipped ++ typed :: ["x"%string]
    /\ Forall (turned_down None None) skipped
    /\ [Invalid_input_line "Y"; Invalid_input_line "n"]
       = map (fun x => Invalid_input_line (PyStr.strip x)) skipped
    /\ ((PyStr.strip typed = ""%string /\ None = Some "25%"%string)
        \/ ("25%"%string = PyStr.strip typed
            /\ (PyStr.lower "25%" ∉ invalid_set None)
            /\ ("25%"%string <> ""%string \/ @None string = None))).
Proof.
  apply (get_valid_input_first_valid None None ["Y"; " n"; " 25% "; "x"]%string
           "25%" ["x"%string]
           [Invalid_input_line "Y"; Invalid_input_line "n"]).
  vm_compute. reflexivity.
Defined.





Example ask_segments_example :
  ask_segments Literal.float_literal 60 []
    ["y"; "50"; "10"; "Y"; "0:10"; "soon"; "end"; "n"; "left"]%string
  = Some (Done [(10, 60)], ["left"%string],
          [Invalid_segment_line; Invalid_timestamp_line; Marked_line 10 60]).
Proof. vm_compute. reflexivity. Qed.

(** ** Positions of graphics and captions *)

(** X13: a graphic or caption that fits in the frame is placed inside the
    frame, whatever position was asked for (a keyword, any other text, a
    fraction of any size or sign) and whatever the margin; one that does
    not fit is placed at 0. *)
Theorem position_in_frame (horizontal vertical : position)
    (video_w video_h w h margin_px : Z) :
  ((w <= video_w ->
    0 <= pos_x horizontal video_w w margin_px
    /\ pos_x horizontal video_w w margin_px + w <= video_w)
   /\ (h <= video_h ->
       0 <= pos_y vertical video_h h margin_px
       /\ pos_y vertical video_h h margin_px + h <= video_h)
   /\ (video_w < w -> pos_x horizontal video_w w margin_px = 0)
   /\ (video_h < h -> pos_y vertical video_h h margin_px = 0))%Z.
Proof. unfold pos_x, pos_y. repeat split; intros; lia. Qed.

Lemma position_in_frame_witness :
  (0 <= pos_x (Fraction (25 # 10)) 1920 400 10
   /\ pos_x (Fraction (25 # 10)) 1920 400 10 + 400 <= 1920)%Z
  /\ pos_y (Keyword "bottom") 1080 2000 10 = 0%Z.
Proof.
  destruct (position_in_frame (Fraction (25 # 10)) (Keyword "bottom")
              1920 1080 400 2000 10) as (Hx & _ & _ & Hy).
  split; [apply Hx; lia | apply Hy; lia].
Defined.

(** X14: the keywords leave symmetric margins.  When the margin fits in
    the free width, [left] puts the left edge at the margin and [right]
    puts the right edge at the margin from the right border; [center]
    leaves the same space on both sides, up to one pixel; and any text
    other than [left] and [right] (a percentage typed for a caption, which
    is not parsed) is placed as [center] is. *)
Theorem keyword_positions (video_w w margin_px : Z) (name : string) :
  (0 <= margin_px -> margin_px <= video_w - w ->
   pos_x (Keyword "left") video_w w margin_px = margin_px
   /\ video_w - (pos_x (Keyword "right") video_w w margin_px + w) = margin_px
   /\ pos_x (Keyword "center") video_w w margin_px
      <= video_w - (pos_x (Keyword "center") video_w w margin_px + w)
      <= pos_x (Keyword "center") video_w w margin_px + 1
   /\ (name <> "left"%string -> name <> "right"%string ->
       pos_x (Keyword name) video_w w margin_px
       = pos_x (Keyword "center") video_w w margin_px))%Z.
Proof.
  intros H0 Hfit. unfold pos_x. simpl.
  split; [lia |]. split; [lia |]. split.
  - pose proof (Z.div_mod (video_w - w) 2 ltac:(lia)) as Hd.
    pose proof (Z.mod_pos_bound (video_w - w) 2 ltac:(lia)) as Hm. lia.
  - intros H1 H2. rewrite (eqb_false_ne _ _ H1), (eqb_false_ne _ _ H2).
    destruct (String.eqb name "center"); reflexivity.
Qed.

Lemma keyword_positions_witness :
  (pos_x (Keyword "left") 1920 400 10 = 10
   /\ 1920 - (pos_x (Keyword "right") 1920 400 10 + 400) = 10
   /\ pos_x (Keyword "center") 1920 400 10
      <= 1920 - (pos_x (Keyword "center") 1920 400 10 + 400)
      <= pos_x (Keyword "center") 1920 400 10 + 1
   /\ pos_x (Keyword "50%") 1920 400 10 = pos_x (Keyword "center") 1920 400 10)%Z.
Proof.
  destruct (keyword_positions 1920 400 10 "50%") as (H1 & H2 & H3 & H4);
    [lia | lia |].
  split; [exact H1 |]. split; [exact H2 |]. split; [exact H3 |].
  apply H4; discriminate.
Defined.

Lemma over_100 (v : Q) : v / 100 == v * (1 # 100).
Proof. unfold Qdiv. change (/ 100) with (1 # 100). reflexivity. Qed.

Lemma in_position_keywords (u : string) :
  u ∈ position_keywords -> In u position_keywords.
Proof. apply list_elem_of_In. Qed.

(** X15: [parse_position_input] never returns a text other than one of
    the five keywords; for a text that does not end in [%], the number it
    returns lies between 0 and 1; for a text that ends in [%] and whose
    number [float] reads, it returns that number over 100 without any
    check of its range. *)
Theorem parse_position_input_range (py_float : string -> option Q)
    (user_input : string) :
  match fst (parse_position_input py_float user_input) with
  | Keyword name => In name position_keywords
  | Fraction value =>
      Builtin.endswith "%" (PyStr.lower (PyStr.strip user_input)) = false ->
      0 <= value /\ value <= 1
  end
  /\ (forall percent,
        ~ In (PyStr.lower (PyStr.strip user_input)) position_keywords ->
        Builtin.endswith "%" (PyStr.lower (PyStr.strip user_input)) = true ->
        py_float (Builtin.strip_char "%" (PyStr.lower (PyStr.strip user_input)))
        = Some percent ->
        parse_position_input py_float user_input = (Fraction (percent / 100), [])).
Proof.
  unfold parse_position_input.
  set (u := PyStr.lower (PyStr.strip user_input)). split.
  - case_bool_decide as Hk; simpl; [now apply in_position_keywords |].
    assert (Hplain :
      match
        fst match py_float u with
            | Some val =>
                if Qle_bool 0 val && Qle_bool val 1 then (Fraction val, [])
                else if Qltb 1 val && Qle_bool val 100
                     then (Fraction (val / 100), [])
                     else (Keyword "center", [invalid_position_line])
            | None => (Keyword "center", [invalid_position_line])
            end
      with
      | Keyword name => In name position_keywords
      | Fraction value => 0 <= value /\ value <= 1
      end).
    { destruct (py_float u) as [val |]; [| simpl; tauto].
      destruct (Qle_bool 0 val && Qle_bool val 1) eqn:E1.
      - apply andb_true_iff in E1. destruct E1 as [Ea Eb].
        apply Qle_bool_iff in Ea, Eb. simpl. now split.
      - destruct (Qltb 1 val && Qle_bool val 100) eqn:E2; [| simpl; tauto].
        apply andb_true_iff in E2. destruct E2 as [Ea Eb].
        apply Qltb_lt in Ea. apply Qle_bool_iff in Eb. simpl.
        rewrite over_100. split; lra. }
    destruct (Builtin.endswith "%" u) eqn:Ee.
    + destruct (py_float (Builtin.strip_char "%" u)) as [p |];
        [simpl; discriminate |].
      revert Hplain.
      destruct (fst _) as [name | value]; [trivial | intros H _; exact H].
    + revert Hplain.
      destruct (fst _) as [name | value]; [trivial | intros H _; exact H].
  - intros percent Hk Ee Hp. case_bool_decide as Hk'.
    + exfalso. apply Hk. now apply in_position_keywords.
    + now rewrite Ee, Hp.
Qed.

Lemma parse_position_input_range_witness :
  parse_position_input Literal.float_literal " 250% " = (Fraction (250 / 100), []).
Proof.
  destruct (parse_position_input_range Literal.float_literal " 250% ") as [_ H].
  apply (H 250); [| reflexivity | reflexivity].
  vm_compute. intros H'. repeat (destruct H' as [H' | H']; [discriminate |]).
  exact H'.
Defined.

Example parse_position_input_examples :
  parse_position_input Literal.float_literal " Left " = (Keyword "left", [])
  /\ parse_position_input Literal.float_literal "0.25" = (Fraction (25 # 100), [])
  /\ parse_position_input Literal.float_literal "25" = (Fraction (25 / 100), [])
  /\ parse_position_input Literal.float_literal "-5"
     = (Keyword "center", [invalid_position_line])
  /\ parse_position_input Literal.float_literal "middle"
     = (Keyword "center", [invalid_position_line]).
Proof. repeat split. Qed.

(** X16: [safe_position] maps [left] and [right], and [top] and [bottom],
    to fractions that mirror each other about one half; with a margin
    between 0 and 1 it turns a text, and a number between 0 and 1, into
    a fraction between 0 and 1; a text that is none of the five keywords
    gives one half. *)
Theorem safe_position_range (pos : position) (safe_margin_frac : Q) :
  safe_position (Keyword "left") safe_margin_frac
  + safe_position (Keyword "right") safe_margin_frac == 1
  /\ safe_position (Keyword "top") safe_margin_frac
     + safe_position (Keyword "bottom") safe_margin_frac == 1
  /\ (0 <= safe_margin_frac -> safe_margin_frac <= 1 ->
      match pos with
      | Keyword name => True
      | Fraction value => 0 <= value /\ value <= 1
      end ->
      0 <= safe_position pos safe_margin_frac
      /\ safe_position pos safe_margin_frac <= 1)
  /\ (forall name, ~ In name position_keywords ->
      safe_position (Keyword name) safe_margin_frac = 1 # 2).
Proof.
  split; [simpl; lra |]. split; [simpl; lra |]. split.
  - intros H0 H1 H. destruct pos as [name | value]; [| exact H].
    unfold safe_position.
    repeat match goal with
      | |- context [if ?b then _ else _] => destruct b
      end; lra.
  - intros name Hn. unfold safe_position.
    assert (H : forall k, In k position_keywords -> String.eqb name k = false).
    { intros k Hk. apply String.eqb_neq. intros ->. now apply Hn. }
    rewrite !H by (simpl; tauto). reflexivity.
Qed.

Lemma safe_position_range_witness :
  0 <= safe_position (Fraction (3 # 4)) (1 # 10)
  /\ safe_position (Fraction (3 # 4)) (1 # 10) <= 1.
Proof.
  destruct (safe_position_range (Fraction (3 # 4)) (1 # 10)) as (_ & _ & H & _).
  apply H; [numerals | numerals | split; numerals].
Defined.

(** ** Percentages *)

Lemma lstrip_length (s : string) :
  (String.length (PyStr.lstrip s) <= String.length s)%nat.
Proof.
  induction s as [| c s IH]; simpl; [lia |].
  destruct (PyStr.isspace c); simpl; lia.
Qed.

Lemma rstrip_length (s : string) :
  (String.length (PyStr.rstrip s) <= String.length s)%nat.
Proof.
  induction s as [| c s IH]; simpl; [lia |].
  destruct (PyStr.rstrip s); [destruct (PyStr.isspace c) |]; simpl in *; lia.
Qed.

(** a text that [strip] leaves as it is does not start with a blank *)
Lemma strip_fixed_head (c : ascii) (s : string) :
  PyStr.strip (String c s) = String c s -> PyStr.isspace c = false.
Proof.
  unfold PyStr.strip. simpl. destruct (PyStr.isspace c); [| reflexivity].
  intros H. apply (f_equal String.length) in H. simpl in H.
  pose proof (rstrip_length (PyStr.lstrip s)). pose proof (lstrip_length s). lia.
Qed.

Lemma rstrip_last (s : string) (c : ascii) :
  PyStr.isspace c = false ->
  PyStr.rstrip (String.append s (String c EmptyString))
  = String.append s (String c EmptyString).
Proof.
  intros Hc. induction s as [| a s IH]; simpl; [now rewrite Hc |].
  rewrite IH. destruct s; reflexivity.
Qed.

Lemma rstrip_blank (s : string) (c : ascii) :
  PyStr.isspace c = true ->
  PyStr.rstrip (String.append s (String c EmptyString)) = PyStr.rstrip s.
Proof.
  intros Hc. induction s as [| a s IH]; simpl; [now rewrite Hc |].
  now rewrite IH.
Qed.

Lemma endswith_last (s : string) (c : ascii) :
  Builtin.endswith c (String.append s (String c EmptyString)) = true.
Proof.
  induction s as [| a s IH]; simpl; [apply Ascii.eqb_refl |].
  destruct (String.append s (String c EmptyString)) eqn:E; [| exact IH].
  destruct s; discriminate.
Qed.

Lemma drop_last_last (s : string) (c : ascii) :
  Builtin.drop_last (String.append s (String c EmptyString)) = s.
Proof.
  induction s as [| a s IH]; simpl; [reflexivity |].
  destruct (String.append s (String c EmptyString)) eqn:E;
    [destruct s; discriminate |].
  now rewrite IH.
Qed.

Lemma append_assoc (s1 s2 s3 : string) :
  String.append (String.append s1 s2) s3 = String.append s1 (String.append s2 s3).
Proof.
  induction s1 as [| c s1 IH]; [reflexivity |].
  change (String c (String.append (String.append s1 s2) s3)
          = String c (String.append s1 (String.append s2 s3))).
  now rewrite IH.
Qed.

Lemma append_cons (c : ascii) (s1 s2 : string) :
  String.append (String c s1) s2 = String c (String.append s1 s2).
Proof. reflexivity. Qed.

Lemma lstrip_head (c : ascii) (s : string) :
  PyStr.isspace c = false -> PyStr.lstrip (String c s) = String c s.
Proof. intros H. simpl. now rewrite H. Qed.

(** X17: the percent sign is optional.  For a text that has no blank at
    either end and does not end in [%], [parse_percentage_input] gives the
    same result, value or exception, for the text alone, for the text
    followed by [%], and for the text followed by a blank and [%]. *)
Theorem percent_sign_optional (py_float : string -> option Q) (t : string) :
  PyStr.strip t = t -> Builtin.endswith "%" t = false ->
  parse_percentage_input py_float (String.append t "%")
  = parse_percentage_input py_float t
  /\ parse_percentage_input py_float (String.append t " %")
     = parse_percentage_input py_float t.
Proof.
  intros Hs He. destruct t as [| c t]; [split; reflexivity |].
  pose proof (strip_fixed_head c t Hs) as Hc.
  assert (Hplain : parse_percentage_input py_float (String c t)
                   = match py_float (String c t) with
                     | Some value => Done (value / 100)
                     | None => Raised (Invalid_percentage_input (String c t))
                     end).
  { unfold parse_percentage_input. now rewrite Hs, He. }
  assert (H1 : PyStr.strip (String.append (String c t) "%")
               = String.append (String c t) "%").
  { unfold PyStr.strip.
    rewrite append_cons, (lstrip_head _ _ Hc), <- append_cons.
    apply (rstrip_last (String c t) "%"). reflexivity. }
  assert (H2 : PyStr.strip (String.append (String.append (String c t) " ") "%")
               = String.append (String.append (String c t) " ") "%").
  { unfold PyStr.strip.
    rewrite !append_cons, (lstrip_head _ _ Hc), <- !append_cons.
    apply (rstrip_last (String.append (String c t) " ") "%"). reflexivity. }
  assert (H3 : PyStr.strip (String.append (String c t) " ") = String c t).
  { unfold PyStr.strip.
    rewrite append_cons, (lstrip_head _ _ Hc), <- append_cons.
    rewrite (rstrip_blank (String c t) " " eq_refl).
    unfold PyStr.strip in Hs. now rewrite (lstrip_head _ _ Hc) in Hs. }
  split; rewrite Hplain; unfold parse_percentage_input.
  - rewrite H1, endswith_last, drop_last_last, Hs. reflexivity.
  - replace (String.append (String c t) " %")
      with (String.append (String.append (String c t) " ") "%")
      by (exact (append_assoc (String c t) " " "%")).
    rewrite H2, endswith_last, drop_last_last, H3. reflexivity.
Qed.

Lemma percent_sign_optional_witness :
  parse_percentage_input Literal.float_literal "25%"
  = parse_percentage_input Literal.float_literal "25"
  /\ parse_percentage_input Literal.float_literal "25 %"
     = parse_percentage_input Literal.float_literal "25".
Proof.
  apply (percent_sign_optional Literal.float_literal "25"); reflexivity.
Defined.

Example parse_percentage_input_examples :
  parse_percentage_input Literal.float_literal " 25% " = Done (25 / 100)
  /\ parse_percentage_input Literal.float_literal "25%%"
     = Raised (Invalid_percentage_input "25%")
  /\ parse_percentage_input Literal.float_literal ""
     = Raised (Invalid_percentage_input "").
Proof. repeat split. Qed.

(** ** Muting *)












(** from the row of an EDL to the exception *)
Example mute_row_raises_in_the_end :
  V1.load_edl_csv Literal.float_literal [mute_row "8" "3"] 60 false
  = (Ok [ {| action := "mute_audio"; record_in := Some 8; record_out := Some 3;
             insert := None |} ], [])
  /\ V1.segments_of "mute_audio"
       [ {| action := "mute_audio"; record_in := Some 8; record_out := Some 3;
            insert := None |} ]
     = Ok [(8, 3)]
  /\ mute_audio_segments 44100 60 (merged_segments (sort [(8, 3)]))
     = Raised Negative_dimensions.
Proof. repeat split; vm_compute; reflexivity. Qed.

(** ** The two encoding passes *)

(** X20: with hardware acceleration and a GPU type among [nvidia], [amd]
    and [intel], the script runs [ffmpeg] on the intermediate file to the
    output path, copying the audio, with an HEVC encoder exactly when the
    software pass used [libx265]; with any other GPU type that is not
    empty (one read from the saved settings) it raises [NameError];
    without hardware acceleration it moves the intermediate file to the
    output path. *)
Theorem export_step_cases (gpu_type quality temp_path output_path : string) :
  (known_gpu gpu_type ->
   exists hw_codec hw_params,
     export_step true (Some gpu_type) quality temp_path output_path
     = Done (Run (["ffmpeg"; "-y"; "-i"; temp_path; "-vf";
                   "colorspace=all=bt709:iall=bt709:itrc=bt709:ispace=bt709:range=tv:irange=tv";
                   "-c:v"; hw_codec]
                  ++ hw_params ++ ["-c:a"; "copy"; output_path]))
     /\ (String.prefix "hevc" hw_codec = true
         <-> fst (software_encoder quality) = "libx265"%string))
  /\ (~ known_gpu gpu_type -> gpu_type <> ""%string ->
      export_step true (Some gpu_type) quality temp_path output_path
      = Raised (NameError "hw_codec"))
  /\ export_step false (Some gpu_type) quality temp_path output_path
     = Done (Replace temp_path output_path)
  /\ export_step true None quality temp_path output_path
     = Done (Replace temp_path output_path).
Proof.
  split; [| split; [| split; reflexivity]].
  - assert (Hq : forall a b : string,
               String.prefix "hevc" a = true -> String.prefix "hevc" b = false ->
               String.prefix "hevc" (if hevc_quality quality then a else b) = true
               <-> fst (software_encoder quality) = "libx265"%string).
    { intros a b Ha Hb. unfold hevc_quality, software_encoder.
      destruct (String.eqb quality "ultra"), (String.eqb quality "better");
        simpl; rewrite ?Ha, ?Hb; split; congruence. }
    intros Hk.
    assert (He : exists hw_codec hw_params,
               hardware_encoder gpu_type quality = Done (hw_codec, hw_params)
               /\ (String.prefix "hevc" hw_codec = true
                   <-> fst (software_encoder quality) = "libx265"%string)).
    { destruct Hk as [-> | [-> | ->]]; eexists _, _;
        (split; [reflexivity | apply Hq; reflexivity]). }
    destruct He as (hw_codec & hw_params & He & Hc).
    exists hw_codec, hw_params. split; [| exact Hc].
    unfold export_step. rewrite He.
    now destruct Hk as [-> | [-> | ->]].
  - intros Hk Hne. unfold export_step.
    assert (Ht : PyStr.truthy gpu_type = true).
    { destruct gpu_type; [contradiction | reflexivity]. }
    rewrite Ht. simpl. unfold hardware_encoder.
    destruct (String.eqb gpu_type "nvidia") eqn:E1;
      [apply String.eqb_eq in E1; exfalso; apply Hk; now left |].
    destruct (String.eqb gpu_type "amd") eqn:E2;
      [apply String.eqb_eq in E2; exfalso; apply Hk; right; now left |].
    destruct (String.eqb gpu_type "intel") eqn:E3;
      [apply String.eqb_eq in E3; exfalso; apply Hk; right; now right |].
    reflexivity.
Qed.

Lemma export_step_cases_witness :
  (exists hw_codec hw_params,
     export_step true (Some "amd"%string) "ultra" "a_EDIT_TEMP.mp4" "a_EDIT.mp4"
     = Done (Run (["ffmpeg"; "-y"; "-i"; "a_EDIT_TEMP.mp4"; "-vf";
                   "colorspace=all=bt709:iall=bt709:itrc=bt709:ispace=bt709:range=tv:irange=tv";
                   "-c:v"; hw_codec]
                  ++ hw_params ++ ["-c:a"; "copy"; "a_EDIT.mp4"]))
     /\ (String.prefix "hevc" hw_codec = true
         <-> fst (software_encoder "ultra") = "libx265"%string))
  /\ export_step true (Some "apple"%string) "good" "a_EDIT_TEMP.mp4" "a_EDIT.mp4"
     = Raised (NameError "hw_codec").
Proof.
  split.
  - destruct (export_step_cases "amd" "ultra" "a_EDIT_TEMP.mp4" "a_EDIT.mp4")
      as (H & _).
    apply H. right. now left.
  - destruct (export_step_cases "apple" "good" "a_EDIT_TEMP.mp4" "a_EDIT.mp4")
      as (_ & H & _).
    apply H; [| discriminate].
    intros [H' | [H' | H']]; discriminate.
Defined.
